(** * Liquid water flux from SNODAS SWE and CaPA precipitation

    A shallow embedding of [lwf_calc/resample.py] and [lwf_calc/lwf.py].

    - Cell values are numpy [float64]: they are modelled by primitive
      binary64 floats, so each rounding of the Python arithmetic is the
      one performed here, and NaN (the "no data" sentinel) is [nan].
    - Time stamps are [datetime64[ns]] values, i.e. 64-bit integers: [Z].
    - Latitude / longitude coordinates are finite floats that the two
      functions only compare (the interpolation itself is scipy's and is
      kept abstract); they are modelled by rationals, every finite
      binary64 being one, compared with [Qle_bool] and [Qeq_bool].
    - A raised Python exception is the left summand of a sum type. *)

From Stdlib Require Import ZArith QArith Qminmax Qabs Qpower Floats Lia Lqa.
From stdpp Require Import base list sorting strings.
From Stdlib Require Ascii.
Import Ascii.AsciiSyntax.

Delimit Scope char_scope with char.

(** ** Exceptions *)

Inductive exn : Set :=
| KeyError (label : Z)  (* [.sel(time=...)]: label absent from the index *)
| IndexError            (* [a[0]] on an empty axis, [isel] out of range,
                           coordinate conflict in [DataArray.__setitem__] *)
| ValueError            (* negative dimension; "No points given" *)
| QhullError.           (* too few points for an initial simplex *)

Definition res (A : Type) : Type := (exn + A)%type.

Definition raise {A} (e : exn) : res A := inl e.

Definition bind {A B} (m : res A) (k : A -> res B) : res B :=
  match m with
  | inl e => inl e
  | inr a => k a
  end.

Notation "'letM' x ':=' m 'in' k" := (bind m (fun x => k))
  (at level 10, x name, m at level 100, k at level 200).

(** [for t in range(lo, lo + n)] threading the mutated array, stopping at the
    first exception. *)
Fixpoint for_each {S} (ts : list nat) (body : nat -> S -> res S) (s : S) : res S :=
  match ts with
  | [] => inr s
  | t :: ts' => letM s' := body t s in for_each ts' body s'
  end.

Definition for_range {S} (lo hi : nat) (body : nat -> S -> res S) (s : S) : res S :=
  for_each (seq lo (hi - lo)) body s.

(** ** Cells and the data model *)

(** A cell value: numpy [float64]. *)
Abbreviation cell := float.

(** One time step: rows by latitude, cells by longitude. *)
Abbreviation grid := (list (list cell)).

(** [86400 * 1000], the integer in [lwf / (86400 * 1000)]. *)
Definition ms_per_day : cell := 86400000%float.

(** A gridded variable with its coordinate axes; [values] is indexed
    [time][latitude][longitude]. *)
Record DataArray := mkDataArray {
  time : list Z;
  latitude : list Q;
  longitude : list Q;
  values : list grid
}.

(** A two-dimensional slice at one time stamp, with its coordinates. *)
Record Slice := mkSlice {
  s_lat : list Q;
  s_lon : list Q;
  s_val : grid
}.

Definition at2 (g : grid) (i j : nat) : option cell :=
  match g !! i with
  | Some row => row !! j
  | None => None
  end.

Definition cell_at (da : DataArray) (t i j : nat) : option cell :=
  match values da !! t with
  | Some g => at2 g i j
  | None => None
  end.

(** The shape invariant of the data model: [values] has one grid per time
    stamp, one row per latitude and one cell per longitude. *)
Definition shape_ok (da : DataArray) : Prop :=
  length (values da) = length (time da) /\
  Forall (fun g => length g = length (latitude da) /\
                   Forall (fun row => length row = length (longitude da)) g)
         (values da).

(** ** Label-based indexing and alignment (xarray) *)

(** [Index.get_loc]: position of a label in an index.  The indexes of the
    data model hold distinct labels (unique time stamps, strictly monotonic
    axes), so a label stands at one position at most. *)
Fixpoint get_loc {A} (eqb : A -> A -> bool) (x : A) (l : list A) : option nat :=
  match l with
  | [] => None
  | y :: l' => if eqb x y then Some 0%nat else S <$> get_loc eqb x l'
  end.

Definition isel (da : DataArray) (t : nat) : res Slice :=
  match values da !! t with
  | Some g => inr (mkSlice (latitude da) (longitude da) g)
  | None => raise IndexError
  end.

(** [da.sel(time=date)] *)
Definition sel (da : DataArray) (date : Z) : res Slice :=
  match get_loc Z.eqb date (time da) with
  | Some i => isel da i
  | None => raise (KeyError date)
  end.

(** [da.time[t].values] *)
Definition time_at (da : DataArray) (t : nat) : res Z :=
  match time da !! t with
  | Some d => inr d
  | None => raise IndexError
  end.

Fixpoint coords_equal (a b : list Q) : bool :=
  match a, b with
  | [], [] => true
  | x :: a', y :: b' => Qeq_bool x y && coords_equal a' b'
  | _, _ => false
  end.

Definition label_in (x : Q) (l : list Q) : bool := existsb (Qeq_bool x) l.

(** Inner join of two indexes: unchanged when they are equal, otherwise the
    labels of the left index that also occur in the right one, in the
    order of the left index. *)
Definition join_inner (a b : list Q) : list Q :=
  if coords_equal a b then a else List.filter (fun x => label_in x b) a.

(** Reindexing along one axis to the labels [new]; equal indexes are left
    alone. *)
Definition reindex_axis {A} (old new : list Q) (xs : list A) (fill : A) : list A :=
  if coords_equal old new then xs
  else (fun x => match get_loc Qeq_bool x old with
                 | Some i => default fill (xs !! i)
                 | None => fill
                 end) <$> new.

Definition reindex (s : Slice) (lat lon : list Q) : grid :=
  (fun row => reindex_axis (s_lon s) lon row nan)
    <$> reindex_axis (s_lat s) lat (s_val s) (replicate (length (s_lon s)) nan).

(** A binary arithmetic operator on two slices: both are aligned on the
    inner join of their coordinates, then combined cell by cell. *)
Definition arith (f : cell -> cell -> cell) (a b : Slice) : Slice :=
  let lat := join_inner (s_lat a) (s_lat b) in
  let lon := join_inner (s_lon a) (s_lon b) in
  mkSlice lat lon (zip_with (zip_with f) (reindex a lat lon) (reindex b lat lon)).

Definition smap (f : cell -> cell) (s : Slice) : Slice :=
  mkSlice (s_lat s) (s_lon s) (map (map f) (s_val s)).

(** [lwf_data[i, :, :] = v] where [lwf_data] carries the coordinates
    [lat], [lon]: the dimension coordinates of [v] must equal them. *)
Definition setitem (lat lon : list Q) (lwf_data : list grid) (i : nat) (v : Slice)
  : res (list grid) :=
  if coords_equal lat (s_lat v) && coords_equal lon (s_lon v)
  then inr (<[i := s_val v]> lwf_data)
  else raise IndexError.

(** ** lwf.py *)

(** [xr.where(lwf < 0, 0, lwf)] on one cell. *)
Definition clamp (x : cell) : cell := if (x <? 0)%float then 0%float else x.

(** One cell of the stored rate, as the loop body computes it. *)
Definition lwf_cell (prev cur p : cell) : cell :=
  (clamp (prev - cur + p) / ms_per_day)%float.

(** One cell of the second dataset, [lwf_data * 86400 * 1000]. *)
Definition to_mm_day (x : cell) : cell := (x * 86400 * 1000)%float.

Definition lwf_step (swe precip : DataArray) (t : nat) (lwf_data : list grid)
  : res (list grid) :=
  letM current_date := time_at swe t in
  letM previous_date := time_at swe (t - 1) in
  letM swe_current := sel swe current_date in
  letM swe_previous := sel swe previous_date in
  letM precip_current := sel precip current_date in
  let lwf := arith PrimFloat.add (arith PrimFloat.sub swe_previous swe_current) precip_current in
  let lwf := smap clamp lwf in
  let lwf := smap (fun x => (x / ms_per_day)%float) lwf in
  setitem (latitude swe) (longitude swe) lwf_data (t - 1) lwf.

Definition calculate_lwf (SNODAS_SWE CaPA : DataArray) : res (DataArray * DataArray) :=
  let swe := SNODAS_SWE in
  let precip := CaPA in
  match length (time swe) with
  | O => raise ValueError
  | S m =>
      let zeros :=
        replicate m (replicate (length (latitude swe))
                               (replicate (length (longitude swe)) 0%float)) in
      letM lwf_data := for_range 1 (S m) (lwf_step swe precip) zeros in
      inr (mkDataArray (drop 1 (time swe)) (latitude swe) (longitude swe) lwf_data,
           mkDataArray (drop 1 (time swe)) (latitude swe) (longitude swe)
                       (map (map (map to_mm_day)) lwf_data))
  end.

(** ** resample.py *)

Definition first_of (l : list Q) : res Q :=
  match l with
  | [] => raise IndexError
  | x :: _ => inr x
  end.

Definition last_of (l : list Q) : res Q :=
  match list.last l with
  | None => raise IndexError
  | Some x => inr x
  end.

(** Boolean-mask indexing, [xs[keep]]. *)
Fixpoint select {A} (keep : list bool) (xs : list A) : list A :=
  match keep, xs with
  | k :: keep', x :: xs' => if k then x :: select keep' xs' else select keep' xs'
  | _, _ => []
  end.

(** [ds.where(cond, drop=True)] for a condition over (latitude, longitude):
    a label is kept when the condition holds somewhere along the other
    axis; remaining cells where it fails are masked. The time axis is not
    a dimension of the condition and is left alone. *)
Definition where_drop (cond : Q -> Q -> bool) (da : DataArray) : DataArray :=
  let keep_lat := (fun la => existsb (fun lo => cond la lo) (longitude da)) <$> latitude da in
  let keep_lon := (fun lo => existsb (fun la => cond la lo) (latitude da)) <$> longitude da in
  let lat' := select keep_lat (latitude da) in
  let lon' := select keep_lon (longitude da) in
  mkDataArray (time da) lat' lon'
    ((fun g => zip_with (fun la row =>
                 zip_with (fun lo v => if cond la lo then v else nan)
                          lon' (select keep_lon row))
               lat' (select keep_lat g)) <$> values da).

Definition in_extent (lon0 lonN lat0 latN : Q) (lat lon : Q) : bool :=
  Qle_bool lon0 lon && Qle_bool lon lonN && Qle_bool lat0 lat && Qle_bool lat latN.

(** "Cut CaPA to the same extent as SNODAS". *)
Definition crop_CaPA (SNODAS_SWE CaPA : DataArray) : res DataArray :=
  let SNODAS_lat_range := latitude SNODAS_SWE in
  let SNODAS_lon_range := longitude SNODAS_SWE in
  letM lon0 := first_of SNODAS_lon_range in
  letM lonN := last_of SNODAS_lon_range in
  letM lat0 := first_of SNODAS_lat_range in
  letM latN := last_of SNODAS_lat_range in
  inr (where_drop (in_extent lon0 lonN lat0 latN) CaPA).

(** [np.meshgrid(lon, lat)] paired up as (lat, lon) points, one row per
    latitude. *)
Definition meshgrid (lon lat : list Q) : list (list (Q * Q)) :=
  (fun la => (fun lo => (la, lo)) <$> lon) <$> lat.

Section Resample.

(** scipy's [LinearNDInterpolator] (Delaunay triangulation, then barycentric
    interpolation, NaN outside the convex hull) on three or more points.  It
    belongs to scipy, not to this repository, and may itself raise (collinear
    points): it is a parameter of the model. *)
Variable LinearNDInterpolator :
  list (Q * Q) -> list cell -> list (list (Q * Q)) -> res grid.

(** [griddata(points, values, xi, method='linear')].  Qhull cannot build an
    initial simplex in the plane from fewer than three points, and scipy
    rejects an empty point set before calling it; both raise. *)
Definition griddata (points : list (Q * Q)) (vals : list cell)
    (xi : list (list (Q * Q))) : res grid :=
  match length points with
  | 0 => raise ValueError
  | 1 | 2 => raise QhullError
  | _ => LinearNDInterpolator points vals xi
  end.

Definition resample_step (SNODAS_SWE : DataArray) (points : list (Q * Q))
    (xi : list (list (Q * Q))) (t : nat) (upscaled_swe : list grid)
  : res (list grid) :=
  letM swe_values := isel SNODAS_SWE t in
  let vals := concat (s_val swe_values) in
  let valid_indices := (fun v => negb (is_nan v)) <$> vals in
  let valid_points := select valid_indices points in
  let valid_values := select valid_indices vals in
  letM upscaled_values := griddata valid_points valid_values xi in
  inr (<[t := upscaled_values]> upscaled_swe).

Definition resample_SNODAS_to_CaPA (SNODAS_SWE CaPA : DataArray)
  : res (DataArray * DataArray) :=
  letM CaPA' := crop_CaPA SNODAS_SWE CaPA in
  let CaPA_lat_range := latitude CaPA' in
  let CaPA_lon_range := longitude CaPA' in
  let time_dim := length (time SNODAS_SWE) in
  let upscaled_swe :=
    replicate time_dim (replicate (length CaPA_lat_range)
                                  (replicate (length CaPA_lon_range) 0%float)) in
  let points := concat (meshgrid (longitude SNODAS_SWE) (latitude SNODAS_SWE)) in
  let xi := meshgrid CaPA_lon_range CaPA_lat_range in
  letM upscaled_swe :=
    for_range 0 time_dim (resample_step SNODAS_SWE points xi) upscaled_swe in
  inr (mkDataArray (time SNODAS_SWE) CaPA_lat_range CaPA_lon_range upscaled_swe,
       CaPA').

End Resample.

(** ** Predicates used in the statements *)

(** The sign information that a comparison with zero observes. *)
Definition sf_nonneg (x : spec_float) : bool :=
  match x with
  | S754_nan => true
  | S754_zero _ => true
  | S754_infinity s => negb s
  | S754_finite s _ _ => negb s
  end.

(** A cell that is "no data" or not below zero. *)
Definition nonneg_or_nan (x : cell) : Prop :=
  is_nan x = true \/ (0 <=? x)%float = true.

Definition all_nonneg_or_nan (rows : list grid) : Prop :=
  Forall (Forall (Forall nonneg_or_nan)) rows.

(** The grid stored for one output row. *)
Definition rate_grid (prev cur p : grid) : grid :=
  map (map (fun x => (x / ms_per_day)%float))
      (map (map clamp)
           (zip_with (zip_with PrimFloat.add)
                     (zip_with (zip_with PrimFloat.sub) prev cur) p)).

(** The row that iteration [t] of the loop stores at index [t - 1]. *)
Definition lwf_row (swe precip : DataArray) (t : nat) : grid :=
  match time swe !! t with
  | Some d =>
      match get_loc Z.eqb d (time precip) with
      | Some k => rate_grid (default [] (values swe !! (t - 1)%nat))
                            (default [] (values swe !! t))
                            (default [] (values precip !! k))
      | None => []
      end
  | None => []
  end.

(** Every time stamp of [swe] from the second on occurs in [precip]. *)
Definition time_covered (swe precip : DataArray) : Prop :=
  forall t d, (1 <= t)%nat -> time swe !! t = Some d -> d ∈ time precip.

(** The precondition of [calculate_lwf]: well-shaped arrays with unique
    time stamps on one common spatial grid. *)
Record lwf_inputs (swe precip : DataArray) : Prop := mk_lwf_inputs {
  in_shape_swe : shape_ok swe;
  in_shape_precip : shape_ok precip;
  in_times_swe : NoDup (time swe);
  in_times_precip : NoDup (time precip);
  in_lat : latitude swe = latitude precip;
  in_lon : longitude swe = longitude precip
}.

(** Smallest and largest coordinate of an axis. *)
Definition axis_min (l : list Q) : option Q :=
  match l with
  | [] => None
  | x :: l' => Some (foldr Qmin x l')
  end.

Definition axis_max (l : list Q) : option Q :=
  match l with
  | [] => None
  | x :: l' => Some (foldr Qmax x l')
  end.

Fixpoint ascending (l : list Q) : Prop :=
  match l with
  | x :: ((y :: _) as l') => (x < y)%Q /\ ascending l'
  | _ => True
  end.

(** The cells of a grid definition: all (latitude, longitude) pairs. *)
Definition has_cell (da : DataArray) (la lo : Q) : Prop :=
  la ∈ latitude da /\ lo ∈ longitude da.

(** Number of valid (non-NaN) source points at time step [t]. *)
Definition valid_points (da : DataArray) (t : nat) : nat :=
  match values da !! t with
  | Some g => length (List.filter (fun v => negb (is_nan v)) (concat g))
  | None => 0
  end.

(** ** Concrete inputs

    A 2 x 2 grid at integer coordinates and two days [d0 = 0], [d1 = 1]. *)

Definition uniform (nlat nlon : nat) (x : cell) : grid :=
  replicate nlat (replicate nlon x).

Definition swe_10_8 : DataArray :=
  mkDataArray [0%Z; 1%Z] [0%Q; 1%Q] [0%Q; 1%Q]
              [uniform 2 2 10%float; uniform 2 2 8%float].

Definition swe_8_10 : DataArray :=
  mkDataArray [0%Z; 1%Z] [0%Q; 1%Q] [0%Q; 1%Q]
              [uniform 2 2 8%float; uniform 2 2 10%float].

(** Precipitation 1 on day [d1] only: its row for [d1] sits at position 0. *)
Definition precip_d1 : DataArray :=
  mkDataArray [1%Z] [0%Q; 1%Q] [0%Q; 1%Q] [uniform 2 2 1%float].

(** Precipitation on day [d0] only. *)
Definition precip_d0 : DataArray :=
  mkDataArray [0%Z] [0%Q; 1%Q] [0%Q; 1%Q] [uniform 2 2 1%float].

(** Precipitation on a larger grid: one more latitude than [swe_10_8]. *)
Definition precip_wide : DataArray :=
  mkDataArray [0%Z; 1%Z] [0%Q; 1%Q; 2%Q] [0%Q; 1%Q]
              [uniform 3 2 1%float; uniform 3 2 1%float].

(** Precipitation on a grid that lacks latitude 1 of [swe_10_8]. *)
Definition precip_shifted : DataArray :=
  mkDataArray [0%Z; 1%Z] [0%Q; 2%Q] [0%Q; 1%Q]
              [uniform 2 2 1%float; uniform 2 2 1%float].

(** A single day of SWE. *)
Definition swe_one_day : DataArray :=
  mkDataArray [0%Z] [0%Q; 1%Q] [0%Q; 1%Q] [uniform 2 2 10%float].

(** A SWE day with a missing cell. *)
Definition swe_gap : DataArray :=
  mkDataArray [0%Z; 1%Z] [0%Q; 1%Q] [0%Q; 1%Q]
              [uniform 2 2 10%float; [[nan; 8%float]; [8%float; 8%float]]].


(** A SNODAS grid definition with latitude stored north to south. *)
Definition snodas_north_up : DataArray :=
  mkDataArray [0%Z] [1%Q; 0%Q] [0%Q; 1%Q] [uniform 2 2 10%float].

(** A CaPA target covering latitudes 0..2 and longitudes 0..1. *)
Definition capa_target : DataArray :=
  mkDataArray [0%Z; 1%Z] [0%Q; 1%Q; 2%Q] [0%Q; 1%Q]
              [uniform 3 2 1%float; uniform 3 2 2%float].

(** ** Further definitions used in the statements *)

(** A grid with [nlat] rows of [nlon] cells. *)
Definition grid_shape (nlat nlon : nat) (g : grid) : Prop :=
  length g = nlat /\ Forall (fun row => length row = nlon) g.

(** No two positions of an axis hold equal coordinates (what a strictly
    monotonic axis guarantees). *)
Definition distinct_labels (l : list Q) : Prop :=
  forall i j x y, l !! i = Some x -> l !! j = Some y -> (x == y)%Q -> i = j.

(** [da.sel(latitude=la, longitude=lo)] at time position [t]: the cell
    stored under a pair of coordinates. *)
Definition label_cell (da : DataArray) (t : nat) (la lo : Q) : option cell :=
  match get_loc Qeq_bool la (latitude da), get_loc Qeq_bool lo (longitude da) with
  | Some i, Some j => cell_at da t i j
  | _, _ => None
  end.

(** Precipitation on both days, with different values on day [d0]. *)
Definition precip_two_days : DataArray :=
  mkDataArray [0%Z; 1%Z] [0%Q; 1%Q] [0%Q; 1%Q]
              [uniform 2 2 7%float; uniform 2 2 1%float].

(** Precipitation on a reordered, larger grid: latitudes north to south
    with an extra row, and distinct values per cell on day [d1]. *)
Definition precip_relabelled : DataArray :=
  mkDataArray [1%Z] [2%Q; 1%Q; 0%Q] [0%Q; 1%Q]
              [[[50; 51]; [30; 31]; [10; 11]]%float].

(** The row that iteration [t] stores when the precipitation slice has to
    be reindexed to the grid of [swe]. *)
Definition lwf_row_by_label (swe precip : DataArray) (t : nat) : grid :=
  match time swe !! t with
  | Some d =>
      match get_loc Z.eqb d (time precip) with
      | Some k =>
          rate_grid (default [] (values swe !! (t - 1)%nat))
                    (default [] (values swe !! t))
                    (reindex (mkSlice (latitude precip) (longitude precip)
                                      (default [] (values precip !! k)))
                             (latitude swe) (longitude swe))
      | None => []
      end
  | None => []
  end.

(** What one iteration of the resampling loop computes before storing it:
    the interpolation of the valid cells of time step [t] onto [xi]. *)
Definition interpolate_step
    (tri : list (Q * Q) -> list cell -> list (list (Q * Q)) -> res grid)
    (src : DataArray) (xi : list (list (Q * Q))) (t : nat) : res grid :=
  letM swe_values := isel src t in
  let vals := concat (s_val swe_values) in
  let valid_indices := (fun v => negb (is_nan v)) <$> vals in
  griddata tri
    (select valid_indices (concat (meshgrid (longitude src) (latitude src))))
    (select valid_indices vals) xi.

(** An interpolant that answers "no data" everywhere. *)
Definition tri_nan (points : list (Q * Q)) (vals : list cell)
    (xi : list (list (Q * Q))) : res grid :=
  inr (map (map (fun _ => nan)) xi).

(** ** run_pipeline.py

    Steps 5 and 6 of [main] (and the same two calls in
    [run_single_location]): the SWE is resampled to the precipitation grid
    and the flux is computed from the two results.  Loading, printing and
    saving are left out; an exception ends the run. *)
Definition resample_then_lwf
    (tri : list (Q * Q) -> list cell -> list (list (Q * Q)) -> res grid)
    (snodas_swe capa_data : DataArray) : res (DataArray * DataArray) :=
  letM resampled := resample_SNODAS_to_CaPA tri snodas_swe capa_data in
  let snodas_resampled := fst resampled in
  let capa_cropped := snd resampled in
  calculate_lwf snodas_resampled capa_cropped.

(** ** snodas.py: the data transformation of [run_postprocessing]

    What is done to one opened SWE file: the raster [Band1] (a slice with
    its [lat] and [lon] axes) is filtered to the area of interest, given a
    time axis holding the date of the file, and renamed to [SWE].  Listing,
    opening and saving the files are left out, and so is the snow depth
    branch, whose division is carried out in single precision. *)

Definition area_alberta_extended : list Q := [127 # 2; -129; 46; -101]%Q.

(** [area_alberta_extended[i]] *)
Definition area_bound (i : nat) : Q := default 0%Q (area_alberta_extended !! i).

(** [(lon >= area[1]) & (lon <= area[3]) & (lat >= area[2])] *)
Definition in_area (lat lon : Q) : bool :=
  Qle_bool (area_bound 1) lon && Qle_bool lon (area_bound 3)
  && Qle_bool (area_bound 2) lat.

(** [ds.where(cond, drop=True)] on a dataset without a time axis. *)
Definition where_drop_2d (cond : Q -> Q -> bool) (ds : Slice) : Slice :=
  let keep_lat := (fun la => existsb (fun lo => cond la lo) (s_lon ds)) <$> s_lat ds in
  let keep_lon := (fun lo => existsb (fun la => cond la lo) (s_lat ds)) <$> s_lon ds in
  let lat' := select keep_lat (s_lat ds) in
  let lon' := select keep_lon (s_lon ds) in
  mkSlice lat' lon'
    (zip_with (fun la row =>
       zip_with (fun lo v => if cond la lo then v else nan)
                lon' (select keep_lon row))
     lat' (select keep_lat (s_val ds))).

(** [ds_filtered.expand_dims(dim={"time": [time_index]})] *)
Definition expand_dims (time_index : Z) (ds : Slice) : DataArray :=
  mkDataArray [time_index] (s_lat ds) (s_lon ds) [s_val ds].

Definition postprocess_SWE (time_index : Z) (ds : Slice) : DataArray :=
  let ds_filtered := where_drop_2d in_area ds in
  let ds_time := expand_dims time_index ds_filtered in
  ds_time.

(** A raster reaching north of the listed area: latitudes 45, 50 and 70. *)
Definition band1_north : Slice :=
  mkSlice [45; 50; 70]%Q [-130; -110]%Q
          [[1; 2]; [3; 4]; [5; 6]]%float.

(** ** load_data.py: [load_CaPA]

    [ds] stands for the dataset read from the archive file, and the dates
    are already [datetime] values; the optional single-location selection
    ([lat], [lon] given) is not modelled. *)

(** [index.searchsorted(label, side)] on a monotonic increasing index: the
    number of entries in front of the insertion point, [before] being
    [t < label] for [side='left'] and [t <= label] for [side='right']. *)
Fixpoint searchsorted (before : Z -> bool) (index : list Z) : nat :=
  match index with
  | [] => 0
  | t :: index' => if before t then S (searchsorted before index') else 0
  end.

(** The time stamps a [datetime64[ns]] index can hold: the 64-bit integers
    other than the smallest one, which encodes NaT. *)
Definition datetime64_ns (t : Z) : bool := ((- 2 ^ 63 <? t) && (t <? 2 ^ 63))%Z.

(** [index.get_slice_bound(label, side)] on a monotonic increasing index.
    A [datetime] that [datetime64[ns]] cannot represent is neither found
    by [get_loc] nor placed by [searchsorted]: the [KeyError] of the failed
    lookup is raised. *)
Definition get_slice_bound (label : Z) (before : Z -> bool) (index : list Z) : res nat :=
  if datetime64_ns label then inr (searchsorted before index)
  else raise (KeyError label).

(** [ds.sel(time=slice(start, stop))]: the positions from the left
    insertion point of [start] up to the right insertion point of [stop],
    the bound of [start] being computed first. *)
Definition sel_time_slice (ds : DataArray) (start stop : Z) : res DataArray :=
  letM lo := get_slice_bound start (fun t => t <? start)%Z (time ds) in
  letM hi := get_slice_bound stop (fun t => t <=? stop)%Z (time ds) in
  inr (mkDataArray (take (hi - lo) (drop lo (time ds)))
                   (latitude ds) (longitude ds)
                   (take (hi - lo) (drop lo (values ds)))).

Definition load_CaPA (ds : DataArray) (start_date end_date : Z) : res DataArray :=
  letM data := sel_time_slice ds start_date end_date in
  inr data.

(** [start <= t <= stop] *)
Definition in_dates (start stop t : Z) : bool := ((start <=? t) && (t <=? stop))%Z.

(** ** load_data.py: the file selection of [load_SNODAS]

    [listing] stands for [os.listdir(archive_dir)] and the two dates are
    already [datetime] values.  The model ends with the sorted list of file
    names; opening and concatenating those files is left out.  A raised
    [ValueError] is the only failure of this part. *)

(** [s.endswith(suffix)] *)
Definition endswith (s suffix : string) : bool :=
  let n := String.length s in
  let m := String.length suffix in
  (m <=? n)%nat && String.eqb (String.substring (n - m) m s) suffix.

(** [file.split('_')[0]] *)
Fixpoint before_underscore (s : string) : string :=
  match s with
  | EmptyString => EmptyString
  | String c s' =>
      if Ascii.eqb c "_"%char then EmptyString
      else String c (before_underscore s')
  end.

(** The order of [list.sort()] on strings: lexicographic by character code. *)
Definition string_le (s1 s2 : string) : Prop := String.leb s1 s2 = true.

#[global] Instance string_le_dec s1 s2 : Decision (string_le s1 s2).
Proof. unfold string_le. apply _. Defined.

(** [for file in files] threading the list being built. *)
Fixpoint for_files {S} (files : list string) (body : string -> S -> res S) (s : S)
  : res S :=
  match files with
  | [] => inr s
  | file :: files' => letM s' := body file s in for_files files' body s'
  end.

Section LoadSNODAS.

(** [datetime.strptime(date_str, '%Y%m%d')], [None] when it raises
    [ValueError].  It belongs to the Python library: a parameter. *)
Variable strptime : string -> option Z.

Definition date_step (start_date end_date : Z) (file : string)
    (date_files : list string) : res (list string) :=
  let date_str := before_underscore file in
  match strptime date_str with
  | None => raise ValueError
  | Some file_date =>
      inr (if in_dates start_date end_date file_date
           then date_files ++ [file] else date_files)
  end.

Definition load_SNODAS_files (listing : list string) (start_date end_date : Z)
    (variable : string) : res (list string) :=
  let files :=
    List.filter (fun f => endswith f (variable +:+ "_final.nc")) listing in
  letM date_files := for_files files (date_step start_date end_date) [] in
  match date_files with
  | [] => raise ValueError
  | _ => inr (merge_sort string_le date_files)
  end.

(** A file whose date prefix parses to a date in the range. *)
Definition dated_in (start_date end_date : Z) (file : string) : bool :=
  match strptime (before_underscore file) with
  | Some file_date => in_dates start_date end_date file_date
  | None => false
  end.

Definition parses (file : string) : bool :=
  match strptime (before_underscore file) with
  | Some _ => true
  | None => false
  end.

End LoadSNODAS.

(** A date parser for names that start with a day number written with
    one digit, enough for the concrete listings below. *)
Definition strptime_digit (date_str : string) : option Z :=
  match date_str with
  | String c EmptyString =>
      let n := Ascii.nat_of_ascii c in
      if (48 <=? n)%nat && (n <=? 57)%nat then Some (Z.of_nat (n - 48)) else None
  | _ => None
  end.

Definition archive_listing : list string :=
  ["3_SWE_final.nc"; "1_SWE_final.nc"; "2_SD_final.nc"; "9_SWE_final.nc";
   "notes.txt"; "2_SWE_final.nc"].

(** ** Classes of binary64 values used in the statements *)

Definition sf_is_nan (x : spec_float) : bool :=
  match x with
  | S754_nan => true
  | _ => false
  end.

(** Zero or a finite non-zero number: neither NaN nor an infinity. *)
Definition sf_finite (x : spec_float) : bool :=
  match x with
  | S754_zero _ | S754_finite _ _ _ => true
  | _ => false
  end.

(** ** The tolerance of the unit round trip *)

(** The rational value of a binary64 number.  An infinity is valued at
    [2^1024], the first power of two beyond the finite doubles, so that a
    product that overflows on one side only is still compared. *)
Definition sf_val (x : spec_float) : Q :=
  match x with
  | S754_zero _ | S754_nan => 0
  | S754_infinity s => if s then - inject_Z (2 ^ 1024) else inject_Z (2 ^ 1024)
  | S754_finite s m e =>
      (if s then - inject_Z (Z.pos m) else inject_Z (Z.pos m)) * 2 ^ e
  end.

(** [2^-51], about [4.4e-16]: four units of rounding of binary64. *)
Definition round_trip_tolerance : Q := 1 # 2251799813685248.

(** [a] and [d] are numbers and [|d - a| <= round_trip_tolerance * |a|]. *)
Definition within_tolerance (a d : cell) : bool :=
  negb (is_nan a) && negb (is_nan d) &&
  Qle_bool (Qabs (sf_val (Prim2SF d) - sf_val (Prim2SF a)))
           (round_trip_tolerance * Qabs (sf_val (Prim2SF a))).

(** What [k] right shifts starting from [(N, false, false)] have computed:
    the quotient by [2^k] and the position of the remainder with respect
    to half of [2^k]. *)
Definition shifted (N k : Z) (mrs : shr_record) : Prop :=
  exists rem : Z,
    (0 <= rem < 2 ^ k /\ N = shr_m mrs * 2 ^ k + rem /\ 0 <= shr_m mrs /\
     (shr_r mrs = true <-> 2 ^ k <= 2 * rem) /\
     (shr_s mrs = true <-> rem <> 0 /\ 2 * rem <> 2 ^ k))%Z.

(** A strictly descending axis. *)
Fixpoint descending (l : list Q) : Prop :=
  match l with
  | x :: ((y :: _) as l') => (y < x)%Q /\ descending l'
  | _ => True
  end.

(** * Properties *)

(** ** Binary64 facts *)

Section float_facts.
Local Open Scope float_scope.

Lemma SFcompare_refl x : x <> S754_nan -> SFcompare x x = Some Eq.
Proof.
  destruct x as [[]|[]| |[] m e]; try reflexivity; try congruence; intros _; simpl.
  - rewrite Z.compare_refl. rewrite Pos.compare_cont_refl. reflexivity.
  - rewrite Z.compare_refl. rewrite Pos.compare_cont_refl. reflexivity.
Qed.

Lemma is_nan_spec x : is_nan x = true <-> Prim2SF x = S754_nan.
Proof.
  unfold is_nan. rewrite FloatAxioms.eqb_spec. unfold SFeqb. split.
  - intros H. destruct (Prim2SF x) eqn:E; try reflexivity;
      rewrite SFcompare_refl in H by discriminate; discriminate.
  - intros ->. reflexivity.
Qed.

Lemma nonneg_or_nan_spec x : nonneg_or_nan x <-> sf_nonneg (Prim2SF x) = true.
Proof.
  unfold nonneg_or_nan. rewrite is_nan_spec, leb_spec.
  change (Prim2SF 0) with (S754_zero false). unfold SFleb.
  destruct (Prim2SF x) as [[]|[]| |[] m e]; simpl; intuition congruence.
Qed.

Lemma nan_add_l x y : is_nan x = true -> is_nan (x + y) = true.
Proof. rewrite !is_nan_spec, add_spec. intros ->. reflexivity. Qed.

Lemma nan_add_r x y : is_nan y = true -> is_nan (x + y) = true.
Proof.
  rewrite !is_nan_spec, add_spec. intros ->.
  destruct (Prim2SF x) as [[]|[]| |[] m e]; reflexivity.
Qed.

Lemma nan_sub_l x y : is_nan x = true -> is_nan (x - y) = true.
Proof. rewrite !is_nan_spec, sub_spec. intros ->. reflexivity. Qed.

Lemma nan_sub_r x y : is_nan y = true -> is_nan (x - y) = true.
Proof.
  rewrite !is_nan_spec, sub_spec. intros ->.
  destruct (Prim2SF x) as [[]|[]| |[] m e]; reflexivity.
Qed.

Lemma nan_mul_l x y : is_nan x = true -> is_nan (x * y) = true.
Proof. rewrite !is_nan_spec, mul_spec. intros ->. reflexivity. Qed.

Lemma nan_div_l x y : is_nan x = true -> is_nan (x / y) = true.
Proof. rewrite !is_nan_spec, div_spec. intros ->. reflexivity. Qed.

Lemma nan_clamp x : is_nan x = true -> is_nan (clamp x) = true.
Proof.
  intros H. unfold clamp. rewrite ltb_spec.
  apply is_nan_spec in H as E. rewrite E. simpl. exact H.
Qed.

(** No data in any operand gives no data in the stored rate and in its
    rescaled copy. *)
Lemma nan_lwf_cell prev cur p :
  is_nan prev = true \/ is_nan cur = true \/ is_nan p = true ->
  is_nan (lwf_cell prev cur p) = true /\
  is_nan (to_mm_day (lwf_cell prev cur p)) = true.
Proof.
  intros H.
  assert (is_nan (lwf_cell prev cur p) = true) as Hr.
  { unfold lwf_cell. apply nan_div_l, nan_clamp.
    destruct H as [H|[H|H]].
    - apply nan_add_l, nan_sub_l, H.
    - apply nan_add_l, nan_sub_r, H.
    - apply nan_add_r, H. }
  split; [exact Hr|]. unfold to_mm_day. apply nan_mul_l, nan_mul_l, Hr.
Qed.

Lemma binary_round_aux_nonneg mx ex lx :
  sf_nonneg (binary_round_aux prec emax false mx ex lx) = true.
Proof.
  unfold binary_round_aux.
  destruct (shr_fexp prec emax mx ex lx) as [mrs' e'].
  destruct (shr_fexp _ _ _ e' loc_Exact) as [mrs'' e''].
  destruct (shr_m mrs''); try reflexivity.
  destruct (Z.leb _ _); reflexivity.
Qed.

Lemma SFdiv_nonneg x m e :
  sf_nonneg x = true ->
  sf_nonneg (SF64div x (S754_finite false m e)) = true.
Proof.
  unfold SF64div, SFdiv.
  destruct x as [s|[]| |[] mx ex]; simpl; try discriminate; try reflexivity.
  intros _.
  destruct (SFdiv_core_binary prec emax (Z.pos mx) ex (Z.pos m) e) as [[mz ez] lz].
  apply binary_round_aux_nonneg.
Qed.

Lemma SFmul_nonneg x m e :
  sf_nonneg x = true ->
  sf_nonneg (SF64mul x (S754_finite false m e)) = true.
Proof.
  unfold SF64mul, SFmul.
  destruct x as [s|[]| |[] mx ex]; simpl; try discriminate; try reflexivity.
  intros _. apply binary_round_aux_nonneg.
Qed.

Lemma clamp_nonneg x : nonneg_or_nan (clamp x).
Proof.
  apply nonneg_or_nan_spec. unfold clamp. rewrite ltb_spec.
  change (Prim2SF 0) with (S754_zero false). unfold SFltb.
  destruct (Prim2SF x) as [[]|[]| |[] m e] eqn:E; simpl; try reflexivity;
    rewrite ?E; reflexivity.
Qed.

Lemma div_ms_per_day_nonneg x : nonneg_or_nan x -> nonneg_or_nan (x / ms_per_day).
Proof.
  rewrite !nonneg_or_nan_spec, div_spec. intros H.
  unfold ms_per_day.
  change (Prim2SF 86400000) with (S754_finite false 5798205849600000 (-26)).
  apply SFdiv_nonneg, H.
Qed.

Lemma lwf_cell_nonneg prev cur p : nonneg_or_nan (lwf_cell prev cur p).
Proof. unfold lwf_cell. apply div_ms_per_day_nonneg, clamp_nonneg. Qed.

Lemma to_mm_day_nonneg x : nonneg_or_nan x -> nonneg_or_nan (to_mm_day x).
Proof.
  unfold to_mm_day. rewrite !nonneg_or_nan_spec, !mul_spec. intros H.
  change (Prim2SF 86400) with (S754_finite false 5937362789990400 (-36)).
  change (Prim2SF 1000) with (S754_finite false 8796093022208000 (-43)).
  apply SFmul_nonneg, SFmul_nonneg, H.
Qed.

End float_facts.

(** ** Loops and indexing *)

Lemma for_each_invariant {S} (I : S -> Prop) ts (body : nat -> S -> res S) s0 s :
  (forall t a b, t ∈ ts -> I a -> body t a = inr b -> I b) ->
  I s0 -> for_each ts body s0 = inr s -> I s.
Proof.
  revert s0. induction ts as [|t ts IH]; simpl; intros s0 Hstep H0 Hrun.
  - congruence.
  - destruct (body t s0) as [e|s1] eqn:E; simpl in Hrun; [discriminate|].
    apply (IH s1); auto.
    + intros t' a b Ht'. apply Hstep. by right.
    + apply (Hstep t s0 s1); auto. by left.
Qed.

(** A loop whose body stores row [g t] at index [t - 1]. *)
Lemma for_each_inserts {A} (body : nat -> list A -> res (list A)) (g : nat -> A) ts data :
  (forall t s, t ∈ ts -> body t s = inr (<[(t - 1)%nat := g t]> s)) ->
  for_each ts body data = inr (foldl (fun s t => <[(t - 1)%nat := g t]> s) data ts).
Proof.
  revert data. induction ts as [|t ts IH]; simpl; intros data Hbody; [done|].
  rewrite Hbody by (by left). simpl. apply IH.
  intros t' s Ht'. apply Hbody. by right.
Qed.

Lemma foldl_insert_seq {A} (g : nat -> A) (pre rest : list A) :
  foldl (fun s t => <[(t - 1)%nat := g t]> s) (pre ++ rest)
        (seq (S (length pre)) (length rest))
  = pre ++ (g <$> seq (S (length pre)) (length rest)).
Proof.
  revert pre. induction rest as [|x rest IH]; intros pre; simpl; [done|].
  rewrite Nat.sub_0_r.
  replace (<[length pre := g (S (length pre))]> (pre ++ x :: rest))
    with ((pre ++ [g (S (length pre))]) ++ rest).
  - specialize (IH (pre ++ [g (S (length pre))])).
    rewrite length_app in IH. simpl in IH.
    rewrite Nat.add_1_r in IH. rewrite IH.
    by rewrite <- app_assoc.
  - rewrite <- app_assoc. simpl.
    replace (length pre) with (length pre + 0)%nat at 2 by lia.
    by rewrite insert_app_r.
Qed.

Lemma for_range_rows {A} (body : nat -> list A -> res (list A)) (g : nat -> A) m data :
  length data = m ->
  (forall t s, (1 <= t <= m)%nat -> body t s = inr (<[(t - 1)%nat := g t]> s)) ->
  for_range 1 (S m) body data = inr (g <$> seq 1 m).
Proof.
  intros Hlen Hbody. unfold for_range.
  replace (S m - 1)%nat with m by lia.
  rewrite (for_each_inserts body g).
  - f_equal. pose proof (foldl_insert_seq g [] data) as H.
    simpl in H. rewrite Hlen in H. exact H.
  - intros t s Ht. apply Hbody. apply elem_of_seq in Ht. lia.
Qed.

Lemma get_loc_lookup (l : list Z) i d :
  NoDup l -> l !! i = Some d -> get_loc Z.eqb d l = Some i.
Proof.
  revert i. induction l as [|y l IH]; intros [|i] Hnd Hl; simpl in *; try done.
  - injection Hl as ->. by rewrite Z.eqb_refl.
  - apply NoDup_cons in Hnd as [Hy Hnd].
    destruct (Z.eqb_spec d y) as [->|_].
    + exfalso. apply Hy. by eapply list_elem_of_lookup_2.
    + by rewrite (IH i).
Qed.

Lemma get_loc_None (l : list Z) d : d ∉ l -> get_loc Z.eqb d l = None.
Proof.
  induction l as [|y l IH]; simpl; intros Hd; [done|].
  apply not_elem_of_cons in Hd as [Hne Hd].
  destruct (Z.eqb_spec d y) as [->|_]; [done|]. by rewrite IH.
Qed.

Lemma get_loc_Some (l : list Z) d i : get_loc Z.eqb d l = Some i -> l !! i = Some d.
Proof.
  revert i. induction l as [|y l IH]; simpl; intros i; [done|].
  destruct (Z.eqb_spec d y) as [->|_].
  - by intros [= <-].
  - destruct (get_loc Z.eqb d l) as [k|]; simpl; [|done].
    intros [= <-]. simpl. by apply IH.
Qed.

(** ** Alignment of slices on one grid *)

Lemma coords_equal_refl a : coords_equal a a = true.
Proof. induction a as [|x a IH]; simpl; [done|]. by rewrite Qeq_bool_refl, IH. Qed.

Lemma coords_equal_length a b : coords_equal a b = true -> length a = length b.
Proof.
  revert b. induction a as [|x a IH]; intros [|y b]; simpl; try done.
  intros [_ H]%andb_prop. f_equal. by apply IH.
Qed.

Lemma join_inner_same a : join_inner a a = a.
Proof. unfold join_inner. by rewrite coords_equal_refl. Qed.

Lemma reindex_same lat lon g : reindex (mkSlice lat lon g) lat lon = g.
Proof.
  unfold reindex, reindex_axis. simpl. rewrite !coords_equal_refl.
  apply list_fmap_id.
Qed.

Lemma arith_same_grid f lat lon g1 g2 :
  arith f (mkSlice lat lon g1) (mkSlice lat lon g2)
  = mkSlice lat lon (zip_with (zip_with f) g1 g2).
Proof. unfold arith. simpl. by rewrite !join_inner_same, !reindex_same. Qed.

Lemma at2_zip_with f g1 g2 i j a b :
  at2 g1 i j = Some a -> at2 g2 i j = Some b ->
  at2 (zip_with (zip_with f) g1 g2) i j = Some (f a b).
Proof.
  unfold at2. rewrite lookup_zip_with.
  destruct (g1 !! i) as [r1|]; [|done]. destruct (g2 !! i) as [r2|]; [|done].
  simpl. intros H1 H2. by rewrite lookup_zip_with, H1, H2.
Qed.

Lemma at2_map f g i j a :
  at2 g i j = Some a -> at2 (map (map f) g) i j = Some (f a).
Proof.
  unfold at2. change (map (map f) g) with (map f <$> g).
  rewrite list_lookup_fmap. destruct (g !! i) as [r|]; [|done]. simpl.
  intros H. change (map f r) with (f <$> r). by rewrite list_lookup_fmap, H.
Qed.

Lemma at2_rate_grid prev cur p i j a b c :
  at2 prev i j = Some a -> at2 cur i j = Some b -> at2 p i j = Some c ->
  at2 (rate_grid prev cur p) i j = Some (lwf_cell a b c).
Proof.
  intros Ha Hb Hc. unfold rate_grid, lwf_cell.
  apply (at2_map (fun x => (x / ms_per_day)%float)), at2_map.
  apply at2_zip_with; [|done]. by apply at2_zip_with.
Qed.

(** ** The flux loop on valid inputs *)

Lemma shape_ok_lookup da t : shape_ok da -> (t < length (time da))%nat ->
  exists g, values da !! t = Some g.
Proof.
  intros [Hlen _] Ht. apply lookup_lt_is_Some_2. by rewrite Hlen.
Qed.

Lemma lwf_step_aligned swe precip t d data :
  lwf_inputs swe precip -> (1 <= t)%nat ->
  time swe !! t = Some d -> d ∈ time precip ->
  lwf_step swe precip t data = inr (<[(t - 1)%nat := lwf_row swe precip t]> data).
Proof.
  intros [Hs Hp Hns Hnp Hlat Hlon] Ht Hd Hin.
  assert (t - 1 < length (time swe))%nat as Hprev
    by (apply lookup_lt_Some in Hd; lia).
  apply lookup_lt_is_Some_2 in Hprev as [d' Hd'].
  apply list_elem_of_lookup_1 in Hin as [k Hk].
  destruct (shape_ok_lookup swe t Hs) as [cur Hcur]; [by eapply lookup_lt_Some|].
  destruct (shape_ok_lookup swe (t - 1) Hs) as [prev Hprev]; [by eapply lookup_lt_Some|].
  destruct (shape_ok_lookup precip k Hp) as [p Hpk]; [by eapply lookup_lt_Some|].
  unfold lwf_step, lwf_row, time_at, sel, isel.
  rewrite Hd, Hd'. simpl.
  rewrite (get_loc_lookup _ _ _ Hns Hd), (get_loc_lookup _ _ _ Hns Hd').
  rewrite (get_loc_lookup _ _ _ Hnp Hk).
  rewrite Hcur, Hprev, Hpk. simpl.
  rewrite <- Hlat, <- Hlon. rewrite !arith_same_grid.
  unfold setitem, smap. simpl. by rewrite !coords_equal_refl.
Qed.

(** On valid inputs the function returns, and its two datasets are built
    from the rows [lwf_row swe precip 1 .. lwf_row swe precip (N-1)]. *)
Lemma calculate_lwf_aligned swe precip :
  lwf_inputs swe precip -> time swe <> [] -> time_covered swe precip ->
  calculate_lwf swe precip =
    inr (mkDataArray (drop 1 (time swe)) (latitude swe) (longitude swe)
           (lwf_row swe precip <$> seq 1 (length (time swe) - 1)),
         mkDataArray (drop 1 (time swe)) (latitude swe) (longitude swe)
           (map (map (map to_mm_day))
                (lwf_row swe precip <$> seq 1 (length (time swe) - 1)))).
Proof.
  intros Hin Hne Hcov. unfold calculate_lwf.
  destruct (length (time swe)) as [|m] eqn:Hlen.
  { destruct (time swe); [done|discriminate]. }
  rewrite (for_range_rows _ (lwf_row swe precip) m).
  - simpl. by rewrite Nat.sub_0_r.
  - by rewrite length_replicate.
  - intros t data Ht.
    destruct (lookup_lt_is_Some_2 (time swe) t) as [d Hd]; [lia|].
    apply (lwf_step_aligned swe precip t d); auto; [lia|].
    apply (Hcov t d); [lia|done].
Qed.

Lemma lwf_row_cell swe precip t d k i j prev cur p :
  NoDup (time precip) -> (1 <= t)%nat ->
  time swe !! t = Some d -> time precip !! k = Some d ->
  cell_at swe (t - 1) i j = Some prev ->
  cell_at swe t i j = Some cur ->
  cell_at precip k i j = Some p ->
  at2 (lwf_row swe precip t) i j = Some (lwf_cell prev cur p).
Proof.
  intros Hnp Ht Hd Hk Hprev Hcur Hp. unfold lwf_row, cell_at in *.
  rewrite Hd, (get_loc_lookup _ _ _ Hnp Hk).
  destruct (values swe !! (t - 1)%nat) as [gp|]; [|done].
  destruct (values swe !! t) as [gc|]; [|done].
  destruct (values precip !! k) as [gk|]; [|done].
  simpl. by apply at2_rate_grid.
Qed.

Lemma cell_at_rows lat lon ts (rows : list grid) t i j :
  cell_at (mkDataArray ts lat lon rows) t i j =
  match rows !! t with Some g => at2 g i j | None => None end.
Proof. reflexivity. Qed.

Lemma lookup_rows (g : nat -> grid) m t :
  (1 <= t <= m)%nat -> (g <$> seq 1 m) !! (t - 1)%nat = Some (g t).
Proof.
  intros Ht. rewrite list_lookup_fmap, lookup_seq_lt by lia.
  simpl. f_equal. f_equal. lia.
Qed.

(** Both output cells at row [t - 1], on valid inputs. *)
Lemma calculate_lwf_cells swe precip t d k i j prev cur p :
  lwf_inputs swe precip -> time_covered swe precip ->
  (1 <= t)%nat -> time swe !! t = Some d -> time precip !! k = Some d ->
  cell_at swe (t - 1) i j = Some prev ->
  cell_at swe t i j = Some cur ->
  cell_at precip k i j = Some p ->
  exists lwf_rate lwf_daily,
    calculate_lwf swe precip = inr (lwf_rate, lwf_daily) /\
    cell_at lwf_rate (t - 1) i j = Some (lwf_cell prev cur p) /\
    cell_at lwf_daily (t - 1) i j = Some (to_mm_day (lwf_cell prev cur p)).
Proof.
  intros Hin Hcov Ht Hd Hk Hprev Hcur Hp.
  assert (time swe <> []) as Hne by (intros E; by rewrite E in Hd).
  eexists _, _. split; [by apply calculate_lwf_aligned|].
  assert (1 <= t <= length (time swe) - 1)%nat as Hrange
    by (apply lookup_lt_Some in Hd; lia).
  pose proof (lwf_row_cell swe precip t d k i j prev cur p
                (in_times_precip _ _ Hin) Ht Hd Hk Hprev Hcur Hp) as Hrow.
  rewrite !cell_at_rows. split.
  - by rewrite lookup_rows.
  - change (map (map (map to_mm_day)) ?l) with (map (map to_mm_day) <$> l).
    rewrite list_lookup_fmap, lookup_rows by done. simpl.
    by apply at2_map.
Qed.

(** ** Concrete preconditions *)

Ltac solve_shape :=
  split; [reflexivity | repeat (constructor; [split; [reflexivity | repeat constructor] |]); constructor].

Ltac solve_nodup :=
  repeat (apply NoDup_cons_2; [rewrite ?elem_of_cons, elem_of_nil; intuition discriminate |]);
  apply NoDup_nil_2.

Ltac solve_inputs :=
  constructor; [solve_shape | solve_shape | solve_nodup | solve_nodup | reflexivity | reflexivity].

Lemma two_days_covered swe precip d0 d1 :
  time swe = [d0; d1] -> d1 ∈ time precip -> time_covered swe precip.
Proof.
  intros E Hd1 t d Ht. rewrite E. destruct t as [|[|t]]; simpl; try lia.
  - by intros [= <-].
  - by rewrite lookup_nil.
Qed.

(** ** Claims about [calculate_lwf] *)

(** C1 (as amended).  On valid, spatially aligned inputs, for every output
    index [t] in 1..N-1 and every cell, [calculate_lwf] returns, and with
    [flux = where(raw < 0, 0, raw)] for [raw = swe[t-1] - swe[t] + precip[t]]
    (precip read at the time stamp of [swe.time[t]]) the first dataset holds
    [flux / 86400000] and the second holds that rate multiplied back by
    86400 and then by 1000, each operation rounded to binary64.  For swe 10
    then 8 and precip 1 the rate is [3 / 86400000] and the daily value is
    2.9999999999999996 (the double just below 3); for swe 8 then 10 and
    precip 1 both are 0. *)
Theorem calculate_lwf_cell_formula swe precip t d k i j prev cur p :
  lwf_inputs swe precip -> time_covered swe precip ->
  (1 <= t)%nat -> time swe !! t = Some d -> time precip !! k = Some d ->
  cell_at swe (t - 1) i j = Some prev ->
  cell_at swe t i j = Some cur ->
  cell_at precip k i j = Some p ->
  exists lwf_rate lwf_daily,
    calculate_lwf swe precip = inr (lwf_rate, lwf_daily) /\
    cell_at lwf_rate (t - 1) i j
      = Some (clamp (prev - cur + p) / 86400000)%float /\
    cell_at lwf_daily (t - 1) i j
      = Some (clamp (prev - cur + p) / 86400000 * 86400 * 1000)%float /\
    (prev = 10%float -> cur = 8%float -> p = 1%float ->
       cell_at lwf_rate (t - 1) i j = Some (3 / 86400000)%float /\
       cell_at lwf_daily (t - 1) i j = Some 0x1.7ffffffffffffp+1%float) /\
    (prev = 8%float -> cur = 10%float -> p = 1%float ->
       cell_at lwf_rate (t - 1) i j = Some 0%float /\
       cell_at lwf_daily (t - 1) i j = Some 0%float).
Proof.
  intros Hin Hcov Ht Hd Hk Hprev Hcur Hp.
  destruct (calculate_lwf_cells swe precip t d k i j prev cur p)
    as (lwf_rate & lwf_daily & Hrun & Hrate & Hdaily); auto.
  exists lwf_rate, lwf_daily.
  split; [done|]. split; [done|]. split; [done|].
  rewrite Hrate, Hdaily. split; intros -> -> ->; by split.
Qed.

Lemma calculate_lwf_cell_formula_witness :
  exists lwf_rate lwf_daily,
    calculate_lwf swe_10_8 precip_d1 = inr (lwf_rate, lwf_daily) /\
    cell_at lwf_rate 0 1 1 = Some (clamp (10 - 8 + 1) / 86400000)%float /\
    cell_at lwf_daily 0 1 1
      = Some (clamp (10 - 8 + 1) / 86400000 * 86400 * 1000)%float /\
    (10%float = 10%float -> 8%float = 8%float -> 1%float = 1%float ->
       cell_at lwf_rate 0 1 1 = Some (3 / 86400000)%float /\
       cell_at lwf_daily 0 1 1 = Some 0x1.7ffffffffffffp+1%float) /\
    (10%float = 8%float -> 8%float = 10%float -> 1%float = 1%float ->
       cell_at lwf_rate 0 1 1 = Some 0%float /\
       cell_at lwf_daily 0 1 1 = Some 0%float).
Proof.
  apply (calculate_lwf_cell_formula swe_10_8 precip_d1 1 1%Z 0 1 1
           10%float 8%float 1%float).
  - solve_inputs.
  - apply (two_days_covered _ _ 0%Z 1%Z); [reflexivity | by left].
  - lia.
  - reflexivity.
  - reflexivity.
  - reflexivity.
  - reflexivity.
  - reflexivity.
Defined.

(** C1, as stated, fails on its own scenario: with swe 10 then 8 and
    precip 1 on valid aligned inputs the returned daily cell is not 3
    (it is 2.9999999999999996, which IEEE comparison also tells from 3). *)
Lemma calculate_lwf_daily_not_3 :
  lwf_inputs swe_10_8 precip_d1 /\
  exists lwf_rate lwf_daily x,
    calculate_lwf swe_10_8 precip_d1 = inr (lwf_rate, lwf_daily) /\
    cell_at lwf_daily 0 0 0 = Some x /\
    (x =? 3)%float = false /\ x <> 3%float.
Proof.
  split; [solve_inputs|].
  eexists _, _, _. split; [reflexivity|]. split; [reflexivity|].
  split; [reflexivity|].
  intros E. apply (f_equal (fun y => (y =? 3)%float)) in E.
  vm_compute in E. discriminate.
Qed.

(** C4.  If any of [swe[t-1]], [swe[t]], [precip[t]] is NaN at a cell, the
    cell of both returned datasets at that output time stamp is NaN. *)
Theorem calculate_lwf_nan_propagates swe precip t d k i j prev cur p :
  lwf_inputs swe precip -> time_covered swe precip ->
  (1 <= t)%nat -> time swe !! t = Some d -> time precip !! k = Some d ->
  cell_at swe (t - 1) i j = Some prev ->
  cell_at swe t i j = Some cur ->
  cell_at precip k i j = Some p ->
  is_nan prev = true \/ is_nan cur = true \/ is_nan p = true ->
  exists lwf_rate lwf_daily r m,
    calculate_lwf swe precip = inr (lwf_rate, lwf_daily) /\
    cell_at lwf_rate (t - 1) i j = Some r /\ is_nan r = true /\
    cell_at lwf_daily (t - 1) i j = Some m /\ is_nan m = true.
Proof.
  intros Hin Hcov Ht Hd Hk Hprev Hcur Hp Hnan.
  destruct (calculate_lwf_cells swe precip t d k i j prev cur p)
    as (lwf_rate & lwf_daily & Hrun & Hrate & Hdaily); auto.
  destruct (nan_lwf_cell prev cur p Hnan) as [Hr Hm].
  by exists lwf_rate, lwf_daily, (lwf_cell prev cur p), (to_mm_day (lwf_cell prev cur p)).
Qed.

Lemma calculate_lwf_nan_propagates_witness :
  exists lwf_rate lwf_daily r m,
    calculate_lwf swe_gap precip_d1 = inr (lwf_rate, lwf_daily) /\
    cell_at lwf_rate 0 0 0 = Some r /\ is_nan r = true /\
    cell_at lwf_daily 0 0 0 = Some m /\ is_nan m = true.
Proof.
  apply (calculate_lwf_nan_propagates swe_gap precip_d1 1 1%Z 0 0 0
           10%float nan 1%float).
  - solve_inputs.
  - apply (two_days_covered _ _ 0%Z 1%Z); [reflexivity | by left].
  - lia.
  - reflexivity.
  - reflexivity.
  - reflexivity.
  - reflexivity.
  - reflexivity.
  - right. left. reflexivity.
Defined.

(** C6.  On valid inputs both returned datasets have the time axis
    [swe.time[1:]] and one row of values per remaining time stamp: the
    first input time stamp produces no output row. *)
Theorem calculate_lwf_time_axis swe precip :
  lwf_inputs swe precip -> time swe <> [] -> time_covered swe precip ->
  exists lwf_rate lwf_daily,
    calculate_lwf swe precip = inr (lwf_rate, lwf_daily) /\
    time lwf_rate = drop 1 (time swe) /\
    time lwf_daily = drop 1 (time swe) /\
    length (values lwf_rate) = (length (time swe) - 1)%nat /\
    length (values lwf_daily) = (length (time swe) - 1)%nat.
Proof.
  intros Hin Hne Hcov. eexists _, _.
  split; [by apply calculate_lwf_aligned|]. simpl.
  repeat split; rewrite ?length_map, ?length_fmap, ?length_seq; reflexivity.
Qed.

Lemma calculate_lwf_time_axis_witness :
  exists lwf_rate lwf_daily,
    calculate_lwf swe_10_8 precip_d1 = inr (lwf_rate, lwf_daily) /\
    time lwf_rate = [1%Z] /\
    time lwf_daily = [1%Z] /\
    length (values lwf_rate) = 1%nat /\
    length (values lwf_daily) = 1%nat.
Proof.
  apply (calculate_lwf_time_axis swe_10_8 precip_d1).
  - solve_inputs.
  - discriminate.
  - apply (two_days_covered _ _ 0%Z 1%Z); [reflexivity | by left].
Defined.

(** C10.  With exactly one time stamp in [swe] no error is raised: the
    loop body never runs and both returned datasets have an empty time
    axis and no value rows. *)
Theorem calculate_lwf_single_day swe precip :
  length (time swe) = 1%nat ->
  exists lwf_rate lwf_daily,
    calculate_lwf swe precip = inr (lwf_rate, lwf_daily) /\
    time lwf_rate = [] /\ values lwf_rate = [] /\
    time lwf_daily = [] /\ values lwf_daily = [].
Proof.
  intros Hlen. unfold calculate_lwf. rewrite Hlen. simpl.
  eexists _, _. split; [reflexivity|]. simpl.
  destruct (time swe) as [|d0 [|d1 ts]]; try discriminate. by simpl.
Qed.

Lemma calculate_lwf_single_day_witness :
  exists lwf_rate lwf_daily,
    calculate_lwf swe_one_day precip_d1 = inr (lwf_rate, lwf_daily) /\
    time lwf_rate = [] /\ values lwf_rate = [] /\
    time lwf_daily = [] /\ values lwf_daily = [].
Proof. apply (calculate_lwf_single_day swe_one_day precip_d1). reflexivity. Defined.

(** The 8 then 10 scenario, evaluated: the negative raw value is clamped. *)
Example calculate_lwf_clamped :
  calculate_lwf swe_8_10 precip_d1 =
    inr (mkDataArray [1%Z] [0%Q; 1%Q] [0%Q; 1%Q] [uniform 2 2 0%float],
         mkDataArray [1%Z] [0%Q; 1%Q] [0%Q; 1%Q] [uniform 2 2 0%float]).
Proof. reflexivity. Qed.

(** *** Missing time stamps *)

Lemma for_each_first_error {S} ts (body : nat -> S -> res S)
    (ok : nat -> Prop) (err : nat -> exn) s :
  (forall t a, t ∈ ts -> (ok t /\ exists b, body t a = inr b)
                         \/ (~ ok t /\ body t a = inl (err t))) ->
  (exists t, t ∈ ts /\ ~ ok t) ->
  exists t, t ∈ ts /\ ~ ok t /\ for_each ts body s = inl (err t).
Proof.
  revert s. induction ts as [|t ts IH]; intros s Hbody [t0 [Ht0 Hbad]].
  - by apply elem_of_nil in Ht0.
  - simpl. destruct (Hbody t s) as [[Hok [b Hb]]|[Hno He]]; [by left| |].
    + rewrite Hb. simpl.
      destruct (IH b) as (t1 & Ht1 & Hno1 & Hrun).
      * intros t' a Ht'. apply Hbody. by right.
      * exists t0. split; [|done].
        apply elem_of_cons in Ht0 as [->|Ht0]; [done|done].
      * exists t1. split; [by right|]. by split.
    + exists t. rewrite He. split; [by left|]. by split.
Qed.

Lemma lwf_step_missing swe precip t d data :
  shape_ok swe -> NoDup (time swe) -> (1 <= t)%nat ->
  time swe !! t = Some d -> d ∉ time precip ->
  lwf_step swe precip t data = inl (KeyError d).
Proof.
  intros Hs Hns Ht Hd Hout.
  assert (t - 1 < length (time swe))%nat as Hprev
    by (apply lookup_lt_Some in Hd; lia).
  apply lookup_lt_is_Some_2 in Hprev as [d' Hd'].
  destruct (shape_ok_lookup swe t Hs) as [cur Hcur]; [by eapply lookup_lt_Some|].
  destruct (shape_ok_lookup swe (t - 1) Hs) as [prev Hprev]; [by eapply lookup_lt_Some|].
  unfold lwf_step, time_at, sel, isel.
  rewrite Hd, Hd'. simpl.
  rewrite (get_loc_lookup _ _ _ Hns Hd), (get_loc_lookup _ _ _ Hns Hd').
  rewrite Hcur, Hprev. simpl.
  by rewrite (get_loc_None _ _ Hout).
Qed.

(** C5.  [precip] is read at the position whose time stamp equals
    [swe.time[t]], whatever that position is; and when some time stamp
    [swe.time[t]], [t >= 1], has no equal in [precip.time], the call raises
    for such a time stamp (xarray's [KeyError], the time alignment error of
    the specification) instead of returning. *)
Theorem calculate_lwf_time_alignment swe precip :
  lwf_inputs swe precip -> (2 <= length (time swe))%nat ->
  (time_covered swe precip ->
   forall t d k i j prev cur p,
     (1 <= t)%nat -> time swe !! t = Some d -> time precip !! k = Some d ->
     cell_at swe (t - 1) i j = Some prev ->
     cell_at swe t i j = Some cur ->
     cell_at precip k i j = Some p ->
     exists lwf_rate lwf_daily,
       calculate_lwf swe precip = inr (lwf_rate, lwf_daily) /\
       cell_at lwf_rate (t - 1) i j = Some (lwf_cell prev cur p)) /\
  ((exists t d, (1 <= t)%nat /\ time swe !! t = Some d /\ (d ∉ time precip)) ->
   exists t d, (1 <= t)%nat /\ time swe !! t = Some d /\ (d ∉ time precip) /\
               calculate_lwf swe precip = inl (KeyError d)).
Proof.
  intros Hin Hlen. split.
  - intros Hcov t d k i j prev cur p Ht Hd Hk Hprev Hcur Hp.
    destruct (calculate_lwf_cells swe precip t d k i j prev cur p)
      as (lwf_rate & lwf_daily & Hrun & Hrate & _); auto.
    by exists lwf_rate, lwf_daily.
  - intros (t0 & d0 & Ht0 & Hd0 & Hout0).
    unfold calculate_lwf.
    destruct (length (time swe)) as [|m] eqn:Hm; [lia|].
    set (ok := fun t => forall d, time swe !! t = Some d -> d ∈ time precip).
    set (err := fun t => KeyError (default 0%Z (time swe !! t))).
    destruct (for_each_first_error (seq 1 (S m - 1)) (lwf_step swe precip) ok err
                (replicate m (replicate (length (latitude swe))
                   (replicate (length (longitude swe)) 0%float))))
      as (t & Ht & Hno & Hrun).
    + intros t a Ht. apply elem_of_seq in Ht.
      destruct (lookup_lt_is_Some_2 (time swe) t) as [d Hd]; [lia|].
      destruct (decide (d ∈ time precip)) as [Hd_in|Hd_out].
      * left. split.
        -- intros d' Hd'. by simplify_eq.
        -- eexists. apply (lwf_step_aligned swe precip t d); auto. lia.
      * right. split.
        -- intros Hok. apply Hd_out. by apply Hok.
        -- unfold err. rewrite Hd. simpl.
           destruct Hin. apply lwf_step_missing; auto. lia.
    + exists t0. split.
      * apply elem_of_seq. apply lookup_lt_Some in Hd0. lia.
      * intros Hok. apply Hout0. by apply Hok.
    + apply elem_of_seq in Ht.
      destruct (lookup_lt_is_Some_2 (time swe) t) as [d Hd]; [lia|].
      exists t, d. split; [lia|]. split; [done|]. split.
      * intros Hd_in. apply Hno. intros d' Hd'. by simplify_eq.
      * unfold for_range. rewrite Hrun. unfold err. by rewrite Hd.
Qed.

Lemma calculate_lwf_time_alignment_witness :
  (time_covered swe_10_8 precip_d0 ->
   forall t d k i j prev cur p,
     (1 <= t)%nat -> time swe_10_8 !! t = Some d ->
     time precip_d0 !! k = Some d ->
     cell_at swe_10_8 (t - 1) i j = Some prev ->
     cell_at swe_10_8 t i j = Some cur ->
     cell_at precip_d0 k i j = Some p ->
     exists lwf_rate lwf_daily,
       calculate_lwf swe_10_8 precip_d0 = inr (lwf_rate, lwf_daily) /\
       cell_at lwf_rate (t - 1) i j = Some (lwf_cell prev cur p)) /\
  ((exists t d, (1 <= t)%nat /\ time swe_10_8 !! t = Some d /\
                (d ∉ time precip_d0)) ->
   exists t d, (1 <= t)%nat /\ time swe_10_8 !! t = Some d /\
               (d ∉ time precip_d0) /\
               calculate_lwf swe_10_8 precip_d0 = inl (KeyError d)).
Proof.
  apply (calculate_lwf_time_alignment swe_10_8 precip_d0).
  - solve_inputs.
  - simpl. lia.
Defined.

(** The scenario of C5, evaluated: [swe.time = [d0, d1]] and
    [precip.time = [d0]] raise for [d1]. *)
Example calculate_lwf_missing_d1 :
  calculate_lwf swe_10_8 precip_d0 = inl (KeyError 1).
Proof. reflexivity. Qed.

(** Lookup is by value: with [precip.time = [d1]] the row for [d1] is
    read although it sits at position 0. *)
Example calculate_lwf_by_value :
  exists lwf_rate lwf_daily,
    calculate_lwf swe_10_8 precip_d1 = inr (lwf_rate, lwf_daily) /\
    time precip_d1 !! 0%nat = time swe_10_8 !! 1%nat.
Proof. eexists _, _. split; reflexivity. Qed.

(** *** Sign of the stored values *)

Lemma lwf_step_result swe precip t a b :
  lwf_step swe precip t a = inr b ->
  exists g : grid,
    b = <[(t - 1)%nat :=
            map (map (fun x => (x / ms_per_day)%float)) (map (map clamp) g)]> a.
Proof.
  unfold lwf_step.
  destruct (time_at swe t) as [|current_date]; simpl; [done|].
  destruct (time_at swe (t - 1)) as [|previous_date]; simpl; [done|].
  destruct (sel swe current_date) as [|swe_current]; simpl; [done|].
  destruct (sel swe previous_date) as [|swe_previous]; simpl; [done|].
  destruct (sel precip current_date) as [|precip_current]; simpl; [done|].
  unfold setitem. simpl.
  destruct (_ && _); [|done].
  intros [= <-]. by eexists.
Qed.

Lemma clamped_rate_nonneg (g : grid) :
  Forall (Forall nonneg_or_nan)
         (map (map (fun x => (x / ms_per_day)%float)) (map (map clamp) g)).
Proof.
  induction g as [|row g IH]; simpl; constructor; [|done].
  induction row as [|x row IHrow]; simpl; constructor; [|done].
  apply div_ms_per_day_nonneg, clamp_nonneg.
Qed.

Lemma zeros_nonneg m nlat nlon :
  all_nonneg_or_nan (replicate m (replicate nlat (replicate nlon 0%float))).
Proof.
  unfold all_nonneg_or_nan.
  repeat (apply Forall_replicate). right. reflexivity.
Qed.

Lemma to_mm_day_rows_nonneg rows :
  all_nonneg_or_nan rows -> all_nonneg_or_nan (map (map (map to_mm_day)) rows).
Proof.
  unfold all_nonneg_or_nan. intros H.
  apply List.Forall_map. eapply Forall_impl; [exact H|]. intros g Hg. simpl.
  apply List.Forall_map. eapply Forall_impl; [exact Hg|]. intros row Hrow. simpl.
  apply List.Forall_map. eapply Forall_impl; [exact Hrow|]. intros x Hx. simpl.
  by apply to_mm_day_nonneg.
Qed.

Lemma all_nonneg_cell ts lat lon rows t i j x :
  all_nonneg_or_nan rows ->
  cell_at (mkDataArray ts lat lon rows) t i j = Some x -> nonneg_or_nan x.
Proof.
  unfold all_nonneg_or_nan, cell_at, at2. simpl. intros H.
  destruct (rows !! t) as [g|] eqn:Hg; [|done].
  destruct (g !! i) as [row|] eqn:Hrow; [|done]. intros Hx.
  eapply Forall_lookup_1 in H; [|exact Hg].
  eapply Forall_lookup_1 in H; [|exact Hrow].
  eapply Forall_lookup_1 in H; [|exact Hx]. exact H.
Qed.

(** C7.  Every cell of either returned dataset that is not NaN is not
    below zero. *)
Theorem calculate_lwf_nonneg swe precip lwf_rate lwf_daily t i j x :
  calculate_lwf swe precip = inr (lwf_rate, lwf_daily) ->
  cell_at lwf_rate t i j = Some x \/ cell_at lwf_daily t i j = Some x ->
  is_nan x = false ->
  (0 <=? x)%float = true.
Proof.
  unfold calculate_lwf.
  destruct (length (time swe)) as [|m]; [done|].
  destruct (for_range 1 (S m) (lwf_step swe precip) _) as [|rows] eqn:Hrun;
    simpl; [done|].
  intros [= <- <-] Hcell Hx.
  assert (all_nonneg_or_nan rows) as Hrows.
  { unfold for_range in Hrun.
    eapply (for_each_invariant all_nonneg_or_nan); [|apply zeros_nonneg|exact Hrun].
    intros t' a b _ Ha Hstep.
    apply lwf_step_result in Hstep as [g ->].
    apply Forall_insert; [exact Ha|]. apply clamped_rate_nonneg. }
  assert (nonneg_or_nan x) as [Hnan|Hpos].
  { destruct Hcell as [Hcell|Hcell].
    - by eapply all_nonneg_cell.
    - eapply all_nonneg_cell; [|exact Hcell]. by apply to_mm_day_rows_nonneg. }
  - congruence.
  - exact Hpos.
Qed.

Lemma calculate_lwf_nonneg_witness :
  exists lwf_rate lwf_daily x,
    calculate_lwf swe_10_8 precip_d1 = inr (lwf_rate, lwf_daily) /\
    cell_at lwf_daily 0 0 0 = Some x /\
    is_nan x = false /\
    (0 <=? x)%float = true.
Proof.
  exists (mkDataArray [1%Z] [0%Q; 1%Q] [0%Q; 1%Q]
                      [uniform 2 2 (3 / 86400000)%float]),
         (mkDataArray [1%Z] [0%Q; 1%Q] [0%Q; 1%Q]
                      [uniform 2 2 0x1.7ffffffffffffp+1%float]),
         0x1.7ffffffffffffp+1%float.
  split; [reflexivity|]. split; [reflexivity|]. split; [reflexivity|].
  apply (calculate_lwf_nonneg swe_10_8 precip_d1
           (mkDataArray [1%Z] [0%Q; 1%Q] [0%Q; 1%Q]
                        [uniform 2 2 (3 / 86400000)%float])
           (mkDataArray [1%Z] [0%Q; 1%Q] [0%Q; 1%Q]
                        [uniform 2 2 0x1.7ffffffffffffp+1%float])
           0 0 0).
  - reflexivity.
  - right. reflexivity.
  - reflexivity.
Defined.

(** The two datasets are one array and its rescaled copy: the second is
    the first multiplied by 86400 and then by 1000. *)
Lemma calculate_lwf_daily_is_scaled_rate swe precip lwf_rate lwf_daily :
  calculate_lwf swe precip = inr (lwf_rate, lwf_daily) ->
  values lwf_daily = map (map (map to_mm_day)) (values lwf_rate).
Proof.
  unfold calculate_lwf.
  destruct (length (time swe)) as [|m]; [done|].
  destruct (for_range 1 (S m) (lwf_step swe precip) _) as [|rows]; simpl; [done|].
  by intros [= <- <-].
Qed.

(** The round trip is not exact in binary64: for a flux of 3 the stored
    rate times 86400000 is 3, while the daily value is the double below. *)
Example round_trip_off_by_one_ulp :
  (lwf_cell 10 8 1 * 86400000 =? 3)%float = true /\
  (to_mm_day (lwf_cell 10 8 1) =? 3)%float = false /\
  to_mm_day (lwf_cell 10 8 1) = next_down 3%float.
Proof. repeat split; reflexivity. Qed.

(** *** The unit round trip

    [lwf_rate * 86400000] is one rounded product, the daily value two; the
    lemmas below follow the rounding of the binary64 specification through
    both. *)

Section round_spec.
Local Open Scope Z_scope.

Lemma digits2_pos_bounds p :
  2 ^ (Z.pos (digits2_pos p) - 1) <= Z.pos p < 2 ^ Z.pos (digits2_pos p).
Proof.
  induction p as [p IH|p IH|]; cbn [digits2_pos].
  - rewrite Pos2Z.inj_succ. replace (Z.succ (Z.pos (digits2_pos p)) - 1)
      with (Z.succ (Z.pos (digits2_pos p) - 1)) by lia.
    rewrite !Z.pow_succ_r by lia. lia.
  - rewrite Pos2Z.inj_succ. replace (Z.succ (Z.pos (digits2_pos p)) - 1)
      with (Z.succ (Z.pos (digits2_pos p) - 1)) by lia.
    rewrite !Z.pow_succ_r by lia. lia.
  - simpl. lia.
Qed.

Lemma shifted_0 N : 0 <= N -> shifted N 0 (Build_shr_record N false false).
Proof. intros H. exists 0. simpl. repeat split; try lia; try discriminate. Qed.

Lemma shifted_shr_1 N k mrs :
  0 <= k -> shifted N k mrs -> shifted N (k + 1) (shr_1 mrs).
Proof.
  intros Hk (rem & Hrem & HN & Hm & Hr & Hs). unfold shifted.
  rewrite Z.pow_add_r, Z.pow_1_r by lia.
  pose proof (Z.pow_pos_nonneg 2 k ltac:(lia) Hk) as HP.
  set (P := 2 ^ k) in *. clearbody P.
  destruct mrs as [m r s]. cbn [shr_m shr_r shr_s] in *.
  assert (orb r s = true <-> rem <> 0) as Hrs.
  { rewrite orb_true_iff, Hr, Hs. lia. }
  destruct m as [|[p|p|]|p]; cbn [shr_1 shr_m shr_r shr_s]; try lia;
    [exists rem|exists (P + rem)|exists rem|exists (P + rem)];
    (split; [lia|]; split; [lia|]; split; [lia|]; split;
     [split; [try discriminate; lia | try reflexivity; lia] | rewrite Hrs; lia]).
Qed.

Lemma shifted_iter_pos N p : forall k mrs,
  0 <= k -> shifted N k mrs ->
  shifted N (k + Z.pos p) (@SpecFloat.iter_pos shr_record shr_1 p mrs).
Proof.
  induction p as [p IH|p IH|]; intros k mrs Hk H; cbn [SpecFloat.iter_pos].
  - replace (k + Z.pos p~1) with (k + 1 + Z.pos p + Z.pos p) by lia.
    apply IH; [lia|]. apply IH; [lia|]. by apply shifted_shr_1.
  - replace (k + Z.pos p~0) with (k + Z.pos p + Z.pos p) by lia.
    apply IH; [lia|]. by apply IH.
  - by apply shifted_shr_1.
Qed.


Lemma Zdigits2_bounds q : 0 < q -> 2 ^ (Zdigits2 q - 1) <= q < 2 ^ Zdigits2 q.
Proof. destruct q; try lia. intros _. apply digits2_pos_bounds. Qed.

Lemma Zdigits2_le q n : 0 < q -> 0 <= n -> q < 2 ^ n -> Zdigits2 q <= n.
Proof.
  intros Hq Hn0 Hn. pose proof (Zdigits2_bounds q Hq) as [Hlo _].
  destruct (Z.le_gt_cases (Zdigits2 q) n) as [|Hgt]; [done|].
  pose proof (Z.pow_le_mono_r 2 n (Zdigits2 q - 1) ltac:(lia) ltac:(lia)). lia.
Qed.

Lemma Zdigits2_ge q n : 0 < q -> 2 ^ (n - 1) <= q -> n <= Zdigits2 q.
Proof.
  intros Hq Hn. pose proof (Zdigits2_bounds q Hq) as [_ Hhi].
  destruct (Z.le_gt_cases n (Zdigits2 q)) as [|Hgt]; [done|].
  assert (0 < Zdigits2 q) by (destruct q; simpl; lia).
  pose proof (Z.pow_le_mono_r 2 (Zdigits2 q) (n - 1) ltac:(lia) ltac:(lia)). lia.
Qed.

(** No shift is needed for a mantissa of at most 53 bits at an exponent
    not below the smallest one. *)
Lemma shr_fexp_fits q e :
  0 < q < 2 ^ 53 -> -1074 <= e ->
  shr_fexp prec emax q e loc_Exact = (Build_shr_record q false false, e).
Proof.
  intros Hq He. unfold shr_fexp, fexp, shr, shr_record_of_loc.
  change (SpecFloat.emin prec emax) with (-1074). change prec with 53.
  pose proof (Zdigits2_le q 53 ltac:(lia) ltac:(lia) ltac:(lia)).
  destruct (Z.max (Zdigits2 q + e - 53) (-1074) - e) eqn:Hs; try reflexivity. lia.
Qed.

(** The carry of a rounding up to [2^53] takes one more shift. *)
Lemma shr_fexp_carry e :
  -1075 <= e ->
  shr_fexp prec emax (2 ^ 53) e loc_Exact = (Build_shr_record (2 ^ 52) false false, e + 1).
Proof.
  intros He. unfold shr_fexp, fexp, shr, shr_record_of_loc.
  change (SpecFloat.emin prec emax) with (-1074). change prec with 53.
  change (Zdigits2 (2 ^ 53)) with 54.
  replace (Z.max (54 + e - 53) (-1074) - e) with 1 by lia. reflexivity.
Qed.

Lemma round_nearest_even_shifted N k mrs :
  0 <= k -> shifted N k mrs ->
  let q := round_nearest_even (shr_m mrs) (loc_of_shr_record mrs) in
  shr_m mrs <= q <= shr_m mrs + 1 /\
  2 * Z.abs (q * 2 ^ k - N) <= 2 ^ k /\
  (N mod 2 ^ k = 0 -> q = shr_m mrs).
Proof.
  intros Hk (rem & Hrem & HN & Hm & Hr & Hs).
  pose proof (Z.pow_pos_nonneg 2 k ltac:(lia) Hk) as HP.
  assert (N mod 2 ^ k = rem) as Hmod.
  { rewrite HN, Z.add_comm, Z.mod_add by lia. apply Z.mod_small. lia. }
  rewrite Hmod. clear Hmod.
  set (P := 2 ^ k) in *. clearbody P.
  destruct mrs as [m r s]. cbn [shr_m shr_r shr_s loc_of_shr_record] in *.
  destruct r, s; cbn [round_nearest_even].
  - assert (P <= 2 * rem) by (by apply Hr). assert (2 * rem <> P) by (by apply Hs). nia.
  - assert (P <= 2 * rem) by (by apply Hr).
    assert (2 * rem = P).
    { destruct (Z.eq_dec (2 * rem) P) as [|Hne]; [done|].
      assert (false = true) as [=]. apply Hs. lia. }
    destruct (Z.even m); nia.
  - assert (rem <> 0 /\ 2 * rem <> P) as [? ?] by (by apply Hs).
    assert (~ P <= 2 * rem) by (intros Hle; by apply Hr in Hle). nia.
  - assert (rem = 0).
    { destruct (Z.eq_dec rem 0) as [|Hne]; [done|].
      destruct (Z.eq_dec (2 * rem) P) as [He|Hne2].
      - assert (false = true) as [=]. apply Hr. lia.
      - assert (false = true) as [=]. apply Hs. lia. }
    nia.
Qed.


Lemma shr_fexp_unfold m e :
  shr_fexp prec emax m e loc_Exact
  = shr (Build_shr_record m false false) e (Z.max (Zdigits2 m + e - 53) (-1074) - e).
Proof. reflexivity. Qed.

(** Rounding of a product [N * 2^E] whose mantissa has at least 53 bits
    and whose value is a multiple of the smallest subnormal: the result
    is [q * 2^(E + sh)], within one part in [2^53] of the product, or an
    infinity when the rounded exponent exceeds the largest one. *)
Lemma binary_round_aux_spec s N E :
  2 ^ 52 <= Z.pos N ->
  (E < -1074 -> Z.pos N mod 2 ^ (-1074 - E) = 0) ->
  exists q sh,
    0 <= sh /\ 0 < Z.pos q < 2 ^ 53 /\
    2 ^ 53 * Z.abs (Z.pos q * 2 ^ sh - Z.pos N) <= Z.pos N /\
    binary_round_aux prec emax s (Z.pos N) E loc_Exact =
      (if E + sh <=? 971 then S754_finite s q (E + sh) else S754_infinity s) /\
    (971 < E + sh -> 2 ^ 52 <= Z.pos q).
Proof.
  intros HN Hdiv.
  pose proof (Zdigits2_bounds (Z.pos N) ltac:(lia)) as [Hdlo Hdhi].
  pose proof (Zdigits2_ge (Z.pos N) 53 ltac:(lia) HN) as Hd.
  unfold binary_round_aux. rewrite shr_fexp_unfold.
  set (d := Zdigits2 (Z.pos N)) in *.
  destruct (Z.le_gt_cases (-1074) (d + E - 53)) as [Hnorm|Hsub].
  - (* the exponent is not clamped *)
    replace (Z.max (d + E - 53) (-1074) - E) with (d - 53) by lia.
    destruct (Z.eq_dec d 53) as [Hd53|Hd53].
    + (* exact *)
      rewrite Hd53. change (53 - 53) with 0. cbn [shr]. cbv beta iota.
      cbn [shr_m loc_of_shr_record round_nearest_even].
      rewrite shr_fexp_fits by (rewrite Hd53 in Hdhi; lia).
      cbn [shr_m]. exists N, 0. rewrite Z.add_0_r, Z.pow_0_r, Z.mul_1_r, Z.sub_diag.
      rewrite Hd53 in Hdhi. simpl Z.abs.
      split; [lia|]. split; [lia|]. split; [lia|]. split; [reflexivity|lia].
    + destruct (d - 53) as [|p|p] eqn:Hp; try lia.
      cbn [shr]. cbv beta iota.
      pose proof (shifted_iter_pos (Z.pos N) p 0 _ ltac:(lia)
                    (shifted_0 (Z.pos N) ltac:(lia))) as Hsh.
      rewrite Z.add_0_l in Hsh.
      pose proof (round_nearest_even_shifted (Z.pos N) (Z.pos p) _ ltac:(lia) Hsh) as (Hq & Herr & _).
      destruct Hsh as (rem & Hrem & HNeq & Hm & _).
      set (mrs := @SpecFloat.iter_pos shr_record shr_1 p _) in *. clearbody mrs.
      set (q := round_nearest_even (shr_m mrs) (loc_of_shr_record mrs)) in *. clearbody q.
      assert (d - 1 = 52 + Z.pos p) as Hd1 by lia.
      assert (d = 53 + Z.pos p) as Hd2 by lia.
      rewrite Hd1, Z.pow_add_r in Hdlo by lia.
      rewrite Hd2, Z.pow_add_r in Hdhi by lia.
      pose proof (Z.pow_pos_nonneg 2 (Z.pos p) ltac:(lia) ltac:(lia)) as HP.
      remember (2 ^ Z.pos p) as P eqn:HPdef.
      assert (2 ^ 52 <= shr_m mrs < 2 ^ 53) as Hm53 by nia.
      destruct (Z.eq_dec q (2 ^ 53)) as [Hcarry|Hcarry].
      * rewrite Hcarry, shr_fexp_carry by lia. cbn [shr_m].
        exists (Z.to_pos (2 ^ 52)), (Z.pos p + 1).
        rewrite Z.pow_add_r, Z.pow_1_r by lia. rewrite <- ?HPdef.
        change (Z.pos (Z.to_pos (2 ^ 52))) with (2 ^ 52).
        replace (E + Z.pos p + 1) with (E + (Z.pos p + 1)) by lia.
        split; [lia|]. split; [lia|]. split; [nia|]. split; [|lia].
        change (2 ^ 52) with (Z.pos (Z.to_pos (2 ^ 52))) at 1.
        cbv iota beta. reflexivity.
      * rewrite shr_fexp_fits by lia. cbn [shr_m].
        destruct q as [|q|q]; try lia.
        exists q, (Z.pos p). rewrite <- ?HPdef.
        split; [lia|]. split; [lia|]. split; [nia|]. split; [|lia].
        reflexivity.
  - (* clamped at the smallest exponent: the shift is exact *)
    replace (Z.max (d + E - 53) (-1074) - E) with (-1074 - E) by lia.
    assert (E < -1074) as HE by lia. specialize (Hdiv HE).
    destruct (-1074 - E) as [|p|p] eqn:Hp; try lia.
    cbn [shr]. cbv beta iota.
    pose proof (shifted_iter_pos (Z.pos N) p 0 _ ltac:(lia)
                  (shifted_0 (Z.pos N) ltac:(lia))) as Hsh.
    rewrite Z.add_0_l in Hsh.
    pose proof (round_nearest_even_shifted (Z.pos N) (Z.pos p) _ ltac:(lia) Hsh) as (_ & Herr & Hexact).
    specialize (Hexact Hdiv).
    destruct Hsh as (rem & Hrem & HNeq & Hm & _).
    set (mrs := @SpecFloat.iter_pos shr_record shr_1 p _) in *. clearbody mrs.
    rewrite Hexact in *.
    assert (rem = 0) as ->.
    { rewrite HNeq, Z.add_comm, Z.mod_add in Hdiv by lia.
      rewrite Z.mod_small in Hdiv; lia. }
    assert (d <= 52 + Z.pos p) as Hd2 by lia.
    pose proof (Z.pow_le_mono_r 2 d (52 + Z.pos p) ltac:(lia) Hd2) as Hpow.
    rewrite Z.pow_add_r in Hpow by lia.
    pose proof (Z.pow_pos_nonneg 2 (Z.pos p) ltac:(lia) ltac:(lia)) as HP.
    remember (2 ^ Z.pos p) as P eqn:HPdef.
    assert (0 < shr_m mrs < 2 ^ 52) as Hm52 by nia.
    rewrite shr_fexp_fits by lia. cbn [shr_m].
    destruct (shr_m mrs) as [|q|q]; try lia.
    exists q, (Z.pos p). rewrite <- ?HPdef.
    replace (E + Z.pos p) with (-1074) by lia.
    split; [lia|]. split; [lia|]. split; [nia|]. split; [reflexivity|lia].
Qed.

End round_spec.

Section round_trip.
Local Open Scope Q_scope.

Lemma pow2_pos e : 0 < 2 ^ e.
Proof. by apply Qpower_0_lt. Qed.

Lemma pow2_inject n : (0 <= n)%Z -> 2 ^ n == inject_Z (2 ^ n).
Proof. intros H. by rewrite Zpower_Qpower. Qed.

Lemma pow2_plus a b : 2 ^ (a + b) == 2 ^ a * 2 ^ b.
Proof. by apply Qpower_plus. Qed.

Lemma canonical_exponent s m e :
  valid_binary (S754_finite s m e) = true -> (-1074 <= e)%Z.
Proof.
  unfold valid_binary, bounded, canonical_mantissa, fexp.
  change (SpecFloat.emin prec emax) with (-1074)%Z.
  intros [H _]%andb_prop. apply Z.eqb_eq in H. lia.
Qed.

(** The product of a finite double with an integer constant [c], stored
    as [mc * 2^ec], has magnitude [w] within one part in [2^53] of the
    exact product, unless it overflows. *)
Lemma SFmul_const_spec s m e mc ec c :
  (-1074 <= e)%Z -> (2 ^ 52 <= Z.pos mc)%Z -> (ec <= 0)%Z ->
  Z.pos mc = (c * 2 ^ (- ec))%Z ->
  exists w : Q,
    9007199254740991 * (inject_Z (Z.pos m) * 2 ^ e * inject_Z c) <= 9007199254740992 * w /\
    9007199254740992 * w <= 9007199254740993 * (inject_Z (Z.pos m) * 2 ^ e * inject_Z c) /\
    ((exists q e',
        SF64mul (S754_finite s m e) (S754_finite false mc ec) = S754_finite s q e' /\
        w == inject_Z (Z.pos q) * 2 ^ e' /\ w < inject_Z (2 ^ 1024)) \/
     (SF64mul (S754_finite s m e) (S754_finite false mc ec) = S754_infinity s /\
      inject_Z (2 ^ 1024) <= w)).
Proof.
  intros He Hmc Hec Hc. unfold SF64mul, SFmul. rewrite xorb_false_r.
  destruct (binary_round_aux_spec s (m * mc) (e + ec)) as (q & sh & Hsh & Hq & Herr & Hres & Hinf).
  { rewrite Pos2Z.inj_mul. nia. }
  { intros HE. rewrite Pos2Z.inj_mul, Hc.
    replace (- ec)%Z with ((- ec - (-1074 - (e + ec))) + (-1074 - (e + ec)))%Z by lia.
    rewrite Z.pow_add_r by lia.
    rewrite !Z.mul_assoc. apply Z.mod_mul.
    apply Z.pow_nonzero; lia. }
  set (V := inject_Z (Z.pos m) * 2 ^ e * inject_Z c).
  assert (inject_Z (Z.pos (m * mc)) * 2 ^ (e + ec) == V) as HV.
  { subst V. rewrite Pos2Z.inj_mul, Hc, !inject_Z_mult, pow2_plus.
    rewrite <- (pow2_inject (- ec)) by lia.
    assert (2 ^ (- ec) * 2 ^ ec == 1) as H1.
    { rewrite <- pow2_plus. by replace (- ec + ec)%Z with 0%Z by lia. }
    rewrite <- (Qmult_1_r (inject_Z (Z.pos m) * 2 ^ e * inject_Z c)), <- H1. ring. }
  exists (inject_Z (Z.pos q * 2 ^ sh) * 2 ^ (e + ec)).
  pose proof (pow2_pos (e + ec)) as HT.
  assert ((9007199254740991 * Z.pos (m * mc) <= 9007199254740992 * (Z.pos q * 2 ^ sh))%Z /\
          (9007199254740992 * (Z.pos q * 2 ^ sh) <= 9007199254740993 * Z.pos (m * mc))%Z)
    as [Hlo Hhi].
  { change (2 ^ 53)%Z with 9007199254740992%Z in Herr. lia. }
  rewrite Zle_Qle, !inject_Z_mult in Hlo, Hhi.
  rewrite <- HV.
  set (a := inject_Z (Z.pos (m * mc))) in *.
  set (b := inject_Z (Z.pos q) * inject_Z (2 ^ sh)) in *.
  set (T := 2 ^ (e + ec)) in *.
  change (inject_Z 9007199254740991) with 9007199254740991 in Hlo.
  change (inject_Z 9007199254740992) with 9007199254740992 in Hlo, Hhi.
  change (inject_Z 9007199254740993) with 9007199254740993 in Hhi.
  rewrite inject_Z_mult. fold b.
  split.
  { rewrite !Qmult_assoc. apply Qmult_le_compat_r; [exact Hlo|by apply Qlt_le_weak]. }
  split.
  { rewrite !Qmult_assoc. apply Qmult_le_compat_r; [exact Hhi|by apply Qlt_le_weak]. }
  assert (b * T == inject_Z (Z.pos q) * 2 ^ (e + ec + sh)) as Hw.
  { subst b T. rewrite (pow2_plus (e + ec) sh), (pow2_inject sh) by lia. ring. }
  destruct (Z.leb_spec (e + ec + sh) 971) as [Hfin|Hovf].
  - left. exists q, (e + ec + sh)%Z. split; [exact Hres|]. split; [exact Hw|].
    rewrite Hw.
    apply Qlt_le_trans with (inject_Z (2 ^ 53) * 2 ^ (e + ec + sh)).
    + apply Qmult_lt_compat_r; [apply pow2_pos|]. rewrite <- Zlt_Qlt. lia.
    + change (2 ^ 1024)%Z with (2 ^ 53 * 2 ^ 971)%Z. rewrite inject_Z_mult.
      rewrite <- (pow2_inject 971) by lia.
      apply Qmult_le_l; [reflexivity|]. apply Qpower_le_compat_l; [lia|discriminate].
  - right. split; [exact Hres|]. rewrite Hw.
    apply Qle_trans with (inject_Z (2 ^ 52) * 2 ^ (e + ec + sh)).
    + change (2 ^ 1024)%Z with (2 ^ 52 * 2 ^ 972)%Z. rewrite inject_Z_mult.
      rewrite <- (pow2_inject 972) by lia.
      apply Qmult_le_l; [reflexivity|]. apply Qpower_le_compat_l; [lia|discriminate].
    + apply Qmult_le_compat_r; [|apply Qlt_le_weak, pow2_pos].
      rewrite <- Zle_Qle. apply Hinf. lia.
Qed.


Lemma close_signed (s : bool) (wd wa : Q) :
  0 <= wa ->
  - (round_trip_tolerance * wa) <= wd - wa -> wd - wa <= round_trip_tolerance * wa ->
  Qabs ((if s then - wd else wd) - (if s then - wa else wa))
    <= round_trip_tolerance * Qabs (if s then - wa else wa).
Proof.
  intros Hwa Hlo Hhi. destruct s.
  - rewrite (Qabs_neg (- wa)) by lra. apply Qabs_Qle_condition. lra.
  - rewrite (Qabs_pos wa) by lra. apply Qabs_Qle_condition. lra.
Qed.

Lemma sf_val_finite s q e w :
  w == inject_Z (Z.pos q) * 2 ^ e ->
  sf_val (S754_finite s q e) == (if s then - w else w).
Proof. intros H. destruct s; simpl; rewrite H; ring. Qed.

Lemma sf_val_infinity s :
  sf_val (S754_infinity s)
  = (if s then - inject_Z (2 ^ 1024) else inject_Z (2 ^ 1024)).
Proof. reflexivity. Qed.

(** Both ways of scaling a finite rate back to millimetres per day, in one
    rounding and in two, end within the tolerance of each other. *)
Lemma sf_round_trip s m e x :
  valid_binary (S754_finite s m e) = true ->
  x = SF64mul (S754_finite s m e) (S754_finite false 5937362789990400 (-36)) ->
  valid_binary x = true ->
  let a := SF64mul (S754_finite s m e) (S754_finite false 5798205849600000 (-26)) in
  let d := SF64mul x (S754_finite false 8796093022208000 (-43)) in
  sf_is_nan a = false /\ sf_is_nan d = false /\
  Qabs (sf_val d - sf_val a) <= round_trip_tolerance * Qabs (sf_val a).
Proof.
  intros Hvalid Hx Hxvalid a d.
  pose proof (canonical_exponent _ _ _ Hvalid) as He.
  destruct (SFmul_const_spec s m e 5798205849600000 (-26) 86400000 He
              ltac:(lia) ltac:(lia) ltac:(reflexivity))
    as (wa & Halo & Hahi & Ha).
  destruct (SFmul_const_spec s m e 5937362789990400 (-36) 86400 He
              ltac:(lia) ltac:(lia) ltac:(reflexivity))
    as (wx & Hxlo & Hxhi & Hxres).
  fold a in Ha. rewrite <- Hx in Hxres.
  set (B := inject_Z (2 ^ 1024)) in *.
  assert (0 < B) as HB by (subst B; rewrite <- (Zlt_Qlt 0); lia).
  change (inject_Z 86400000) with 86400000 in *.
  change (inject_Z 86400) with 86400 in *.
  assert (0 < inject_Z (Z.pos m) * 2 ^ e) as Hr.
  { apply Qmult_lt_0_compat; [rewrite <- (Zlt_Qlt 0); lia|apply pow2_pos]. }
  set (R := inject_Z (Z.pos m) * 2 ^ e) in *. clearbody R.
  unfold round_trip_tolerance.
  destruct Hxres as [(q1 & e1 & Hxeq & Hwx & Hxfin)|[Hxeq Hxinf]].
  - (* the first product is finite *)
    rewrite Hxeq in Hxvalid. pose proof (canonical_exponent _ _ _ Hxvalid) as He1.
    destruct (SFmul_const_spec s q1 e1 8796093022208000 (-43) 1000 He1
                ltac:(lia) ltac:(lia) ltac:(reflexivity))
      as (wd & Hdlo & Hdhi & Hd).
    change (inject_Z 1000) with 1000 in *.
    rewrite <- Hwx in Hdlo, Hdhi. rewrite <- Hxeq in Hd. fold d in Hd. fold B in Hd.
    destruct Ha as [(qa & ea & -> & Hwa & Hafin)|[-> Hainf]],
             Hd as [(qd & ed & -> & Hwd & Hdfin)|[-> Hdinf]];
      (split; [reflexivity|]); (split; [reflexivity|]);
      rewrite ?(sf_val_finite _ _ _ _ Hwd), ?(sf_val_finite _ _ _ _ Hwa),
              ?sf_val_infinity; fold B; clearbody B;
      apply close_signed; unfold round_trip_tolerance; lra.
  - (* the first product overflows: so does the single product *)
    subst d. rewrite Hxeq. cbn [SF64mul SFmul xorb]. rewrite xorb_false_r.
    destruct Ha as [(qa & ea & Haeq & Hwa & Hafin)|[-> Hainf]]; [exfalso; clearbody B; lra|].
    split; [reflexivity|]. split; [reflexivity|]. rewrite sf_val_infinity. fold B. clearbody B.
    apply close_signed; unfold round_trip_tolerance; lra.
Qed.

End round_trip.

Section round_trip_cells.
Local Open Scope float_scope.

Lemma is_nan_sf x : is_nan x = sf_is_nan (Prim2SF x).
Proof.
  pose proof (is_nan_spec x) as H.
  destruct (is_nan x), (Prim2SF x); simpl; intuition congruence.
Qed.

Lemma within_tolerance_spec a d :
  within_tolerance a d = true <->
  sf_is_nan (Prim2SF a) = false /\ sf_is_nan (Prim2SF d) = false /\
  (Qabs (sf_val (Prim2SF d) - sf_val (Prim2SF a))
     <= round_trip_tolerance * Qabs (sf_val (Prim2SF a)))%Q.
Proof.
  unfold within_tolerance. rewrite !andb_true_iff, !negb_true_iff, Qle_bool_iff, !is_nan_sf.
  tauto.
Qed.

(** The rate scaled back in one multiplication and the daily value, scaled
    back in two, agree within the tolerance for every rate that is a
    number. *)
Lemma to_mm_day_round_trip r :
  is_nan r = false -> within_tolerance (r * 86400000) (to_mm_day r) = true.
Proof.
  intros Hr. apply within_tolerance_spec. unfold to_mm_day.
  rewrite is_nan_sf in Hr.
  pose proof (Prim2SF_valid r) as Hvalid.
  pose proof (Prim2SF_valid (r * 86400)) as Hxvalid.
  rewrite (mul_spec (r * 86400) 1000), (mul_spec r 86400000).
  rewrite (mul_spec r 86400) in *.
  change (Prim2SF 86400000) with (S754_finite false 5798205849600000 (-26)) in *.
  change (Prim2SF 86400) with (S754_finite false 5937362789990400 (-36)) in *.
  change (Prim2SF 1000) with (S754_finite false 8796093022208000 (-43)) in *.
  destruct (Prim2SF r) as [s|s| |s m e]; [| |discriminate|].
  - split; [reflexivity|]. split; [reflexivity|]. by destruct s.
  - split; [reflexivity|]. split; [reflexivity|].
    apply Qle_bool_iff. by destruct s; vm_compute.
  - by apply (sf_round_trip s m e _ Hvalid eq_refl Hxvalid).
Qed.

End round_trip_cells.

(** What the tolerance accepts and what it refuses: around 3 a double is
    accepted up to three steps away and refused from four steps on; NaN is
    never accepted, and an infinity only beside the largest doubles. *)
Example within_tolerance_examples :
  within_tolerance 3 (next_down 3) = true /\
  within_tolerance 3 0x1.8000000000003p+1 = true /\
  within_tolerance 3 0x1.8000000000004p+1 = false /\
  within_tolerance 3 nan = false /\
  within_tolerance 0 0x1p-1074 = false /\
  within_tolerance infinity infinity = true /\
  within_tolerance infinity 0x1.fffffffffffffp+1023 = true /\
  within_tolerance infinity 0x1p+1023 = false.
Proof. repeat split; vm_compute; reflexivity. Qed.

(** C8.  Wherever the first dataset holds a number, the second dataset
    holds at the same place that rate multiplied by 86400 and then by 1000
    (both datasets are the one array filled by the loop, the second
    rescaled), and this daily value agrees with [rate * 86400000] within
    the relative tolerance [2^-51]. *)
Theorem calculate_lwf_unit_round_trip swe precip lwf_rate lwf_daily t i j r :
  calculate_lwf swe precip = inr (lwf_rate, lwf_daily) ->
  cell_at lwf_rate t i j = Some r ->
  is_nan r = false ->
  exists d,
    cell_at lwf_daily t i j = Some d /\
    d = to_mm_day r /\
    within_tolerance (r * ms_per_day) d = true.
Proof.
  intros Hrun Hr Hnan. exists (to_mm_day r).
  split; [|split; [reflexivity|by apply to_mm_day_round_trip]].
  apply calculate_lwf_daily_is_scaled_rate in Hrun.
  unfold cell_at in *. rewrite Hrun.
  change (map (map (map to_mm_day)) ?l) with (map (map to_mm_day) <$> l).
  rewrite list_lookup_fmap.
  destruct (values lwf_rate !! t) as [g|]; [|done]. simpl. by apply at2_map.
Qed.

Lemma calculate_lwf_unit_round_trip_witness :
  exists d,
    cell_at (mkDataArray [1%Z] [0%Q; 1%Q] [0%Q; 1%Q]
                         [uniform 2 2 0x1.7ffffffffffffp+1%float]) 0 0 0 = Some d /\
    d = to_mm_day (3 / 86400000)%float /\
    within_tolerance ((3 / 86400000) * ms_per_day)%float d = true.
Proof.
  apply (calculate_lwf_unit_round_trip swe_10_8 precip_d1
           (mkDataArray [1%Z] [0%Q; 1%Q] [0%Q; 1%Q]
                        [uniform 2 2 (3 / 86400000)%float])
           (mkDataArray [1%Z] [0%Q; 1%Q] [0%Q; 1%Q]
                        [uniform 2 2 0x1.7ffffffffffffp+1%float])
           0 0 0 (3 / 86400000)%float).
  - reflexivity.
  - reflexivity.
  - reflexivity.
Defined.

(** *** Grids that differ *)

Lemma coords_equal_label_in a b x :
  coords_equal a b = true -> x ∈ a -> label_in x b = true.
Proof.
  revert b. induction a as [|y a IH]; intros [|z b]; simpl; try done.
  - by intros _ ?%elem_of_nil.
  - intros [Hyz Hab]%andb_prop [->|Hx]%elem_of_cons.
    + by rewrite Hyz.
    + rewrite (IH b Hab Hx). apply orb_true_r.
Qed.

Lemma coords_equal_filter (keep : Q -> bool) a x :
  coords_equal a (List.filter keep a) = true -> x ∈ a -> keep x = true.
Proof.
  induction a as [|y a IH].
  - by intros _ ?%elem_of_nil.
  - cbn [List.filter]. destruct (keep y) eqn:Hy.
    + simpl. intros [_ Ha]%andb_prop [->|Hx]%elem_of_cons; [done|]. by apply IH.
    + intros Hlen%coords_equal_length. simpl in Hlen.
      pose proof (List.filter_length_le keep a). lia.
Qed.

Lemma join_inner_missing a b x :
  x ∈ a -> label_in x b = false -> coords_equal a (join_inner a b) = false.
Proof.
  intros Hx Hout. unfold join_inner.
  destruct (coords_equal a b) eqn:Hab.
  - rewrite (coords_equal_label_in a b x Hab Hx) in Hout. discriminate.
  - destruct (coords_equal a (List.filter _ a)) eqn:Hf; [|done].
    rewrite (coords_equal_filter _ a x Hf Hx) in Hout. discriminate.
Qed.

(** C9 (as amended).  There is no grid comparison in [calculate_lwf]: the
    operands are aligned by coordinate label.  When a latitude or longitude
    of [swe] has no equal in [precip] (and the first output row is reached:
    [swe.time[1]] exists and occurs in [precip.time]), the assignment of
    that row raises, and nothing is returned. *)
Theorem calculate_lwf_missing_coordinate swe precip d :
  shape_ok swe -> shape_ok precip ->
  NoDup (time swe) -> NoDup (time precip) ->
  time swe !! 1%nat = Some d -> d ∈ time precip ->
  (exists x, x ∈ latitude swe /\ label_in x (latitude precip) = false) \/
  (exists x, x ∈ longitude swe /\ label_in x (longitude precip) = false) ->
  calculate_lwf swe precip = inl IndexError.
Proof.
  intros Hs Hp Hns Hnp Hd Hin Hmiss.
  assert (1 < length (time swe))%nat as Hlen by (by eapply lookup_lt_Some).
  destruct (lookup_lt_is_Some_2 (time swe) 0) as [d' Hd']; [lia|].
  apply list_elem_of_lookup_1 in Hin as [k Hk].
  destruct (shape_ok_lookup swe 1 Hs) as [cur Hcur]; [lia|].
  destruct (shape_ok_lookup swe 0 Hs) as [prev Hprev]; [lia|].
  destruct (shape_ok_lookup precip k Hp) as [p Hpk]; [by eapply lookup_lt_Some|].
  unfold calculate_lwf.
  destruct (length (time swe)) as [|[|m]] eqn:Hm; [lia|lia|].
  unfold for_range. simpl seq. simpl for_each.
  unfold lwf_step at 1, time_at, sel, isel. simpl.
  rewrite Hd, Hd'. simpl.
  rewrite (get_loc_lookup _ _ _ Hns Hd), (get_loc_lookup _ _ _ Hns Hd').
  rewrite (get_loc_lookup _ _ _ Hnp Hk).
  rewrite Hcur, Hprev, Hpk. simpl.
  rewrite arith_same_grid. unfold setitem, smap, arith. simpl.
  destruct Hmiss as [(x & Hx & Hout)|(x & Hx & Hout)].
  - by rewrite (join_inner_missing _ _ x Hx Hout).
  - rewrite (join_inner_missing (longitude swe) _ x Hx Hout).
    by rewrite andb_false_r.
Qed.

Lemma calculate_lwf_missing_coordinate_witness :
  calculate_lwf swe_10_8 precip_shifted = inl IndexError.
Proof.
  apply (calculate_lwf_missing_coordinate swe_10_8 precip_shifted 1%Z).
  - solve_shape.
  - solve_shape.
  - solve_nodup.
  - solve_nodup.
  - reflexivity.
  - right. by left.
  - left. exists 1%Q. split; [right; by left | reflexivity].
Defined.

(** C9, as stated, fails: the grids of [swe_10_8] and [precip_wide] differ
    (the latter has one more latitude), both are well-formed with the same
    time stamps, and outputs are produced on the grid of [swe]. *)
Lemma calculate_lwf_differing_grids_return :
  coords_equal (latitude swe_10_8) (latitude precip_wide) = false /\
  shape_ok swe_10_8 /\ shape_ok precip_wide /\
  time swe_10_8 = time precip_wide /\
  calculate_lwf swe_10_8 precip_wide =
    inr (mkDataArray [1%Z] [0%Q; 1%Q] [0%Q; 1%Q]
                     [uniform 2 2 (3 / 86400000)%float],
         mkDataArray [1%Z] [0%Q; 1%Q] [0%Q; 1%Q]
                     [uniform 2 2 0x1.7ffffffffffffp+1%float]).
Proof.
  split; [reflexivity|]. split; [solve_shape|]. split; [solve_shape|].
  split; reflexivity.
Qed.

(** ** Claims about [resample_SNODAS_to_CaPA] *)








(** *** The crop step *)

Lemma select_fmap_filter {A} (f : A -> bool) (l : list A) :
  select (f <$> l) l = List.filter f l.
Proof.
  induction l as [|x l IH]; csimpl; [done|]. rewrite IH. by destruct (f x).
Qed.

Lemma elem_of_filter_bool {A} (f : A -> bool) (l : list A) x :
  x ∈ List.filter f l <-> x ∈ l /\ f x = true.
Proof. by rewrite !list_elem_of_In, List.filter_In. Qed.

Lemma existsb_elem_of {A} (f : A -> bool) (l : list A) :
  existsb f l = true <-> exists x, x ∈ l /\ f x = true.
Proof.
  rewrite List.existsb_exists. by setoid_rewrite list_elem_of_In.
Qed.

Lemma in_extent_spec lon0 lonN lat0 latN la lo :
  in_extent lon0 lonN lat0 latN la lo = true <->
  (lon0 <= lo)%Q /\ (lo <= lonN)%Q /\ (lat0 <= la)%Q /\ (la <= latN)%Q.
Proof.
  unfold in_extent. rewrite !andb_true_iff, !Qle_bool_iff. tauto.
Qed.

(** The cells that [where(cond, drop=True)] keeps, for the rectangular
    condition of the crop. *)
Lemma where_drop_extent_cells lon0 lonN lat0 latN tgt la lo :
  has_cell (where_drop (in_extent lon0 lonN lat0 latN) tgt) la lo <->
  has_cell tgt la lo /\
  (lon0 <= lo)%Q /\ (lo <= lonN)%Q /\ (lat0 <= la)%Q /\ (la <= latN)%Q.
Proof.
  unfold has_cell, where_drop. cbn [latitude longitude].
  rewrite !select_fmap_filter, !elem_of_filter_bool, !existsb_elem_of.
  setoid_rewrite in_extent_spec. split.
  - intros [[Hla (lo' & _ & Hlo')] [Hlo (la' & _ & Hla')]]. tauto.
  - intros [[Hla Hlo] Hbox]. split; (split; [done|]).
    + by exists lo.
    + by exists la.
Qed.

Lemma ascending_lt_head x l y : ascending (x :: l) -> y ∈ l -> (x < y)%Q.
Proof.
  revert x. induction l as [|z l IH]; intros x Hasc Hy.
  - by apply elem_of_nil in Hy.
  - destruct Hasc as [Hxz Hasc]. apply elem_of_cons in Hy as [->|Hy]; [done|].
    eapply Qlt_trans; [exact Hxz|]. by apply IH.
Qed.

Lemma ascending_le_last l z y :
  ascending l -> list.last l = Some z -> y ∈ l -> (y <= z)%Q.
Proof.
  induction l as [|x l IH]; intros Hasc Hlast Hy.
  - by apply elem_of_nil in Hy.
  - destruct l as [|x' l].
    + injection Hlast as <-. apply elem_of_cons in Hy as [->|Hy].
      * apply Qle_refl.
      * by apply elem_of_nil in Hy.
    + rewrite last_cons_cons in Hlast.
      apply elem_of_cons in Hy as [->|Hy].
      * apply Qlt_le_weak. apply (ascending_lt_head _ (x' :: l)); [done|].
        by apply last_Some_elem_of.
      * apply IH; [apply Hasc|done|done].
Qed.

Lemma foldr_Qmin_lb x l y : y ∈ x :: l -> (foldr Qmin x l <= y)%Q.
Proof.
  induction l as [|z l IH]; simpl.
  - intros [->|Hy%elem_of_nil]%elem_of_cons; [apply Qle_refl|done].
  - intros [->|[->|Hy]%elem_of_cons]%elem_of_cons.
    + eapply Qle_trans; [apply Q.le_min_r|]. apply IH. by left.
    + apply Q.le_min_l.
    + eapply Qle_trans; [apply Q.le_min_r|]. apply IH. by right.
Qed.

Lemma foldr_Qmin_glb x l z :
  (forall y, y ∈ x :: l -> (z <= y)%Q) -> (z <= foldr Qmin x l)%Q.
Proof.
  induction l as [|w l IH]; simpl; intros H.
  - apply H. by left.
  - apply Q.min_glb.
    + apply H. right. by left.
    + apply IH. intros y [->|Hy]%elem_of_cons; apply H; [by left|by do 2 right].
Qed.

Lemma foldr_Qmax_ub x l y : y ∈ x :: l -> (y <= foldr Qmax x l)%Q.
Proof.
  induction l as [|z l IH]; simpl.
  - intros [->|Hy%elem_of_nil]%elem_of_cons; [apply Qle_refl|done].
  - intros [->|[->|Hy]%elem_of_cons]%elem_of_cons.
    + eapply Qle_trans; [|apply Q.le_max_r]. apply IH. by left.
    + apply Q.le_max_l.
    + eapply Qle_trans; [|apply Q.le_max_r]. apply IH. by right.
Qed.

Lemma foldr_Qmax_lub x l z :
  (forall y, y ∈ x :: l -> (y <= z)%Q) -> (foldr Qmax x l <= z)%Q.
Proof.
  induction l as [|w l IH]; simpl; intros H.
  - apply H. by left.
  - apply Q.max_lub.
    + apply H. right. by left.
    + apply IH. intros y [->|Hy]%elem_of_cons; apply H; [by left|by do 2 right].
Qed.

(** On an ascending axis the first entry is the minimum and the last
    entry the maximum. *)
Lemma ascending_ends l lo hi :
  ascending l -> axis_min l = Some lo -> axis_max l = Some hi ->
  exists x0 xN, first_of l = inr x0 /\ last_of l = inr xN /\
                (x0 == lo)%Q /\ (xN == hi)%Q.
Proof.
  destruct l as [|x l]; [done|]. simpl. intros Hasc [= <-] [= <-].
  unfold last_of.
  destruct (list.last (x :: l)) as [z|] eqn:Hlast.
  2:{ by destruct l using rev_ind; [|rewrite app_comm_cons, last_snoc in Hlast]. }
  exists x, z. repeat split.
  - apply Qle_antisym.
    + apply foldr_Qmin_glb. intros y [->|Hy]%elem_of_cons; [apply Qle_refl|].
      apply Qlt_le_weak. by apply (ascending_lt_head _ l).
    + apply foldr_Qmin_lb. by left.
  - apply Qle_antisym.
    + apply foldr_Qmax_ub. by apply last_Some_elem_of.
    + apply foldr_Qmax_lub. intros y Hy. by apply (ascending_le_last (x :: l)).
Qed.

(** X6.  For a source with ascending axes the crop keeps exactly the target
    cells inside the closed bounding box of the source, and the whole
    time axis. *)
Lemma crop_CaPA_ascending src tgt lat_min lat_max lon_min lon_max :
  ascending (latitude src) -> ascending (longitude src) ->
  axis_min (latitude src) = Some lat_min ->
  axis_max (latitude src) = Some lat_max ->
  axis_min (longitude src) = Some lon_min ->
  axis_max (longitude src) = Some lon_max ->
  exists cropped,
    crop_CaPA src tgt = inr cropped /\
    time cropped = time tgt /\
    forall la lo,
      has_cell cropped la lo <->
      has_cell tgt la lo /\
      (lon_min <= lo)%Q /\ (lo <= lon_max)%Q /\
      (lat_min <= la)%Q /\ (la <= lat_max)%Q.
Proof.
  intros Hlat Hlon Hlat_min Hlat_max Hlon_min Hlon_max.
  destruct (ascending_ends _ _ _ Hlat Hlat_min Hlat_max)
    as (lat0 & latN & Hlat0 & HlatN & Elat0 & ElatN).
  destruct (ascending_ends _ _ _ Hlon Hlon_min Hlon_max)
    as (lon0 & lonN & Hlon0 & HlonN & Elon0 & ElonN).
  unfold crop_CaPA. rewrite Hlon0, HlonN, Hlat0, HlatN. simpl.
  eexists. split; [reflexivity|]. split; [reflexivity|].
  intros la lo. rewrite where_drop_extent_cells.
  by rewrite Elat0, ElatN, Elon0, ElonN.
Qed.

(** C2 at a source stored north to south: the source spans latitudes
    0..1 and longitudes 0..1, the target cell (0, 0) lies in that box, and
    the crop returns a target with no cell left. *)
Theorem crop_CaPA_north_up_drops_all :
  axis_min (latitude snodas_north_up) = Some 0%Q /\
  axis_max (latitude snodas_north_up) = Some 1%Q /\
  axis_min (longitude snodas_north_up) = Some 0%Q /\
  axis_max (longitude snodas_north_up) = Some 1%Q /\
  has_cell capa_target 0%Q 0%Q /\
  crop_CaPA snodas_north_up capa_target
    = inr (mkDataArray [0%Z; 1%Z] [] [] [[]; []]).
Proof.
  repeat split; try reflexivity; by left.
Qed.

(** The second dataset returned by the resampler is the result of the crop
    step, and the first one carries the source's time axis on the cropped
    grid. *)
Lemma resample_returns_crop tri src tgt upscaled cropped :
  resample_SNODAS_to_CaPA tri src tgt = inr (upscaled, cropped) ->
  crop_CaPA src tgt = inr cropped /\
  time upscaled = time src /\
  latitude upscaled = latitude cropped /\
  longitude upscaled = longitude cropped.
Proof.
  unfold resample_SNODAS_to_CaPA.
  destruct (crop_CaPA src tgt) as [e|c]; simpl; [done|].
  destruct (for_range _ _ _ _) as [e|up]; simpl; [done|].
  by intros [= <- <-].
Qed.

(** * Further properties of the code *)

(** ** [calculate_lwf]: when it returns, and what it returns *)

Lemma calculate_lwf_uncovered swe precip t0 d0 :
  lwf_inputs swe precip ->
  (1 <= t0)%nat -> time swe !! t0 = Some d0 -> d0 ∉ time precip ->
  exists d, d ∈ drop 1 (time swe) /\ (d ∉ time precip) /\
            calculate_lwf swe precip = inl (KeyError d).
Proof.
  intros Hin Ht0 Hd0 Hout0. unfold calculate_lwf.
  destruct (length (time swe)) as [|m] eqn:Hm.
  { apply lookup_lt_Some in Hd0. lia. }
  set (ok := fun t => forall d, time swe !! t = Some d -> d ∈ time precip).
  set (err := fun t => KeyError (default 0%Z (time swe !! t))).
  destruct (for_each_first_error (seq 1 (S m - 1)) (lwf_step swe precip) ok err
              (replicate m (replicate (length (latitude swe))
                 (replicate (length (longitude swe)) 0%float))))
    as (t & Ht & Hno & Hrun).
  - intros t a Ht. apply elem_of_seq in Ht.
    destruct (lookup_lt_is_Some_2 (time swe) t) as [d Hd]; [lia|].
    destruct (decide (d ∈ time precip)) as [Hd_in|Hd_out].
    + left. split; [intros d' Hd'; by simplify_eq|].
      eexists. apply (lwf_step_aligned swe precip t d); auto. lia.
    + right. split; [intros Hok; apply Hd_out; by apply Hok|].
      unfold err. rewrite Hd. simpl.
      destruct Hin. apply lwf_step_missing; auto. lia.
  - exists t0. split; [apply elem_of_seq; apply lookup_lt_Some in Hd0; lia|].
    intros Hok. apply Hout0. by apply Hok.
  - apply elem_of_seq in Ht.
    destruct (lookup_lt_is_Some_2 (time swe) t) as [d Hd]; [lia|].
    exists d. split; [|split].
    + apply list_elem_of_lookup. exists (t - 1)%nat.
      rewrite lookup_drop. by replace (1 + (t - 1))%nat with t by lia.
    + intros Hd_in. apply Hno. intros d' Hd'. by simplify_eq.
    + unfold for_range. rewrite Hrun. unfold err. by rewrite Hd.
Qed.

(** X1.  On well-formed inputs that share one grid, [calculate_lwf] returns its
    two datasets exactly when [swe] has at least one time stamp and every
    time stamp of [swe] after the first occurs in [precip]. *)
Theorem calculate_lwf_returns_iff swe precip :
  lwf_inputs swe precip ->
  (exists out, calculate_lwf swe precip = inr out) <->
  time swe <> [] /\ time_covered swe precip.
Proof.
  intros Hin. split.
  - intros [out Hrun]. split.
    + intros E. unfold calculate_lwf in Hrun. by rewrite E in Hrun.
    + intros t d Ht Hd.
      destruct (decide (d ∈ time precip)) as [Hd_in|Hd_out]; [done|].
      destruct (calculate_lwf_uncovered swe precip t d Hin Ht Hd Hd_out)
        as (d' & _ & _ & Herr).
      congruence.
  - intros [Hne Hcov]. eexists. by apply calculate_lwf_aligned.
Qed.

Lemma calculate_lwf_returns_iff_witness :
  (exists out, calculate_lwf swe_10_8 precip_d1 = inr out) <->
  time swe_10_8 <> [] /\ time_covered swe_10_8 precip_d1.
Proof. apply (calculate_lwf_returns_iff swe_10_8 precip_d1). solve_inputs. Defined.

Lemma grid_shape_zip_with f nlat nlon g1 g2 :
  grid_shape nlat nlon g1 -> grid_shape nlat nlon g2 ->
  grid_shape nlat nlon (zip_with (zip_with f) g1 g2).
Proof.
  intros [Hl1 Hr1] [Hl2 Hr2]. split.
  - rewrite length_zip_with. lia.
  - apply Forall_lookup_2. intros i row Hrow.
    apply lookup_zip_with_Some in Hrow as (r1 & r2 & -> & H1 & H2).
    rewrite length_zip_with.
    rewrite (Forall_lookup_1 _ _ _ _ Hr1 H1), (Forall_lookup_1 _ _ _ _ Hr2 H2). lia.
Qed.

Lemma grid_shape_map f nlat nlon g :
  grid_shape nlat nlon g -> grid_shape nlat nlon (map (map f) g).
Proof.
  intros [Hl Hr]. split; [by rewrite length_map|].
  apply List.Forall_map. eapply Forall_impl; [exact Hr|].
  intros row Hrow. simpl. by rewrite length_map.
Qed.

Lemma shape_ok_grid da t g :
  shape_ok da -> values da !! t = Some g ->
  grid_shape (length (latitude da)) (length (longitude da)) g.
Proof. intros [_ Hrows] Hg. exact (Forall_lookup_1 _ _ _ _ Hrows Hg). Qed.

Lemma lwf_row_shape swe precip t d :
  lwf_inputs swe precip -> (1 <= t)%nat ->
  time swe !! t = Some d -> d ∈ time precip ->
  grid_shape (length (latitude swe)) (length (longitude swe)) (lwf_row swe precip t).
Proof.
  intros [Hs Hp Hns Hnp Hlat Hlon] Ht Hd Hin.
  apply list_elem_of_lookup_1 in Hin as [k Hk].
  destruct (shape_ok_lookup swe t Hs) as [cur Hcur]; [by eapply lookup_lt_Some|].
  destruct (shape_ok_lookup swe (t - 1) Hs) as [prev Hprev].
  { apply lookup_lt_Some in Hd. lia. }
  destruct (shape_ok_lookup precip k Hp) as [p Hpk]; [by eapply lookup_lt_Some|].
  unfold lwf_row. rewrite Hd, (get_loc_lookup _ _ _ Hnp Hk), Hcur, Hprev, Hpk. simpl.
  unfold rate_grid. do 2 apply grid_shape_map.
  apply grid_shape_zip_with; [apply grid_shape_zip_with|].
  - by apply (shape_ok_grid swe (t - 1)).
  - by apply (shape_ok_grid swe t).
  - rewrite Hlat, Hlon. by apply (shape_ok_grid precip k).
Qed.

(** X2.  The datasets returned for well-formed inputs live on the grid of [swe]
    and are themselves well shaped: one row of values per output time
    stamp, one row per latitude, one cell per longitude. *)
Theorem calculate_lwf_output_shape swe precip lwf_rate lwf_daily :
  lwf_inputs swe precip ->
  calculate_lwf swe precip = inr (lwf_rate, lwf_daily) ->
  latitude lwf_rate = latitude swe /\ longitude lwf_rate = longitude swe /\
  latitude lwf_daily = latitude swe /\ longitude lwf_daily = longitude swe /\
  shape_ok lwf_rate /\ shape_ok lwf_daily.
Proof.
  intros Hin Hrun.
  assert (time swe <> [] /\ time_covered swe precip) as [Hne Hcov].
  { apply calculate_lwf_returns_iff; [done|]. by eexists. }
  rewrite (calculate_lwf_aligned swe precip Hin Hne Hcov) in Hrun.
  injection Hrun as <- <-. simpl.
  assert (Forall (grid_shape (length (latitude swe)) (length (longitude swe)))
                 (lwf_row swe precip <$> seq 1 (length (time swe) - 1))) as Hrows.
  { apply Forall_fmap, Forall_forall. intros t Ht%elem_of_seq. simpl.
    destruct (lookup_lt_is_Some_2 (time swe) t) as [d Hd]; [lia|].
    apply (lwf_row_shape swe precip t d); auto; [lia|].
    apply (Hcov t d); [lia|done]. }
  repeat split; try reflexivity; simpl.
  - rewrite length_fmap, length_seq, length_drop. lia.
  - exact Hrows.
  - rewrite length_map, length_fmap, length_seq, length_drop. lia.
  - apply List.Forall_map. eapply Forall_impl; [exact Hrows|].
    intros g Hg. simpl. by apply grid_shape_map.
Qed.

Lemma calculate_lwf_output_shape_witness :
  exists lwf_rate lwf_daily,
    calculate_lwf swe_10_8 precip_d1 = inr (lwf_rate, lwf_daily) /\
    latitude lwf_rate = latitude swe_10_8 /\
    longitude lwf_rate = longitude swe_10_8 /\
    latitude lwf_daily = latitude swe_10_8 /\
    longitude lwf_daily = longitude swe_10_8 /\
    shape_ok lwf_rate /\ shape_ok lwf_daily.
Proof.
  eexists _, _. split; [reflexivity|].
  apply (calculate_lwf_output_shape swe_10_8 precip_d1).
  - solve_inputs.
  - reflexivity.
Defined.

Lemma for_each_ext {S} ts (body1 body2 : nat -> S -> res S) s :
  (forall t a, t ∈ ts -> body1 t a = body2 t a) ->
  for_each ts body1 s = for_each ts body2 s.
Proof.
  revert s. induction ts as [|t ts IH]; intros s Hext; simpl; [done|].
  rewrite Hext by (by left). destruct (body2 t s) as [e|s']; simpl; [done|].
  apply IH. intros t' a Ht'. apply Hext. by right.
Qed.

(** X3.  Only the precipitation selected by the time stamps [swe.time[1:]] is
    read: two precipitation datasets whose selections at those time stamps
    agree give the same outcome, whatever else they hold (other days, the
    day of [swe.time[0]], another order of the days). *)
Theorem calculate_lwf_reads_matching_days swe precip1 precip2 :
  (forall t d, (1 <= t)%nat -> time swe !! t = Some d ->
               sel precip1 d = sel precip2 d) ->
  calculate_lwf swe precip1 = calculate_lwf swe precip2.
Proof.
  intros Hsel. unfold calculate_lwf.
  destruct (length (time swe)) as [|m]; [done|].
  unfold for_range.
  rewrite (for_each_ext _ (lwf_step swe precip1) (lwf_step swe precip2)); [done|].
  intros t a Ht%elem_of_seq. unfold lwf_step, time_at.
  destruct (time swe !! t) as [d|] eqn:Hd; simpl; [|done].
  rewrite (Hsel t d); [done|lia|done].
Qed.

Lemma calculate_lwf_reads_matching_days_witness :
  calculate_lwf swe_10_8 precip_d1 = calculate_lwf swe_10_8 precip_two_days.
Proof.
  apply (calculate_lwf_reads_matching_days swe_10_8 precip_d1 precip_two_days).
  intros [|[|t]] d Ht; simpl; [lia| |by rewrite lookup_nil].
  by intros [= <-].
Defined.

(** ** [calculate_lwf]: alignment by coordinate label *)

Lemma filter_all {A} (f : A -> bool) (l : list A) :
  (forall x, x ∈ l -> f x = true) -> List.filter f l = l.
Proof.
  induction l as [|x l IH]; intros H; simpl; [done|].
  rewrite (H x) by (by left). f_equal. apply IH. intros y Hy. apply H. by right.
Qed.

Lemma join_inner_subset a b :
  (forall x, x ∈ a -> label_in x b = true) -> join_inner a b = a.
Proof.
  intros H. unfold join_inner. destruct (coords_equal a b); [done|].
  by apply filter_all.
Qed.

Lemma get_loc_Qeq_Some x l k :
  get_loc Qeq_bool x l = Some k -> exists z, l !! k = Some z /\ (x == z)%Q.
Proof.
  revert k. induction l as [|y l IH]; simpl; intros k; [done|].
  destruct (Qeq_bool x y) eqn:E.
  - intros [= <-]. exists y. split; [done|]. by apply Qeq_bool_iff.
  - destruct (get_loc Qeq_bool x l) as [k'|]; simpl; [|done].
    intros [= <-]. by apply IH.
Qed.

Lemma label_in_get_loc x l :
  label_in x l = true -> exists k, get_loc Qeq_bool x l = Some k.
Proof.
  unfold label_in. induction l as [|y l IH]; simpl; [done|].
  destruct (Qeq_bool x y); simpl; [by eexists|].
  intros [k ->]%IH. by eexists.
Qed.

Lemma coords_equal_lookup a b i x :
  coords_equal a b = true -> b !! i = Some x ->
  exists y, a !! i = Some y /\ (y == x)%Q.
Proof.
  revert b i. induction a as [|y a IH]; intros [|z b] i; simpl; try done.
  intros [Hyz Hab]%andb_prop. destruct i as [|i]; simpl.
  - intros [= <-]. exists y. split; [done|]. by apply Qeq_bool_iff.
  - by apply IH.
Qed.

Lemma reindex_axis_lookup {A} (old new : list Q) (xs : list A) fill i x k v :
  distinct_labels old ->
  new !! i = Some x -> get_loc Qeq_bool x old = Some k -> xs !! k = Some v ->
  reindex_axis old new xs fill !! i = Some v.
Proof.
  intros Hdist Hx Hk Hv. unfold reindex_axis.
  destruct (coords_equal old new) eqn:Heq.
  - destruct (coords_equal_lookup old new i x Heq Hx) as (y & Hy & Hyx).
    destruct (get_loc_Qeq_Some x old k Hk) as (z & Hz & Hxz).
    assert (i = k) as ->; [|done].
    apply (Hdist i k y z Hy Hz). by rewrite Hyx.
  - rewrite list_lookup_fmap, Hx. simpl. by rewrite Hk, Hv.
Qed.

Lemma at2_reindex plat plon p lat lon i j la lo i' j' v :
  distinct_labels plat -> distinct_labels plon ->
  lat !! i = Some la -> lon !! j = Some lo ->
  get_loc Qeq_bool la plat = Some i' -> get_loc Qeq_bool lo plon = Some j' ->
  at2 p i' j' = Some v ->
  at2 (reindex (mkSlice plat plon p) lat lon) i j = Some v.
Proof.
  intros Hdlat Hdlon Hla Hlo Hi' Hj'. unfold at2, reindex. simpl.
  destruct (p !! i') as [row|] eqn:Hrow; [|done]. intros Hv.
  rewrite list_lookup_fmap.
  rewrite (reindex_axis_lookup plat lat p _ i la i' row); try done. simpl.
  by apply (reindex_axis_lookup plon lon row _ j lo j' v).
Qed.

Lemma lwf_step_by_label swe precip t d data :
  shape_ok swe -> shape_ok precip ->
  NoDup (time swe) -> NoDup (time precip) ->
  (forall x, x ∈ latitude swe -> label_in x (latitude precip) = true) ->
  (forall x, x ∈ longitude swe -> label_in x (longitude precip) = true) ->
  (1 <= t)%nat -> time swe !! t = Some d -> d ∈ time precip ->
  lwf_step swe precip t data
  = inr (<[(t - 1)%nat := lwf_row_by_label swe precip t]> data).
Proof.
  intros Hs Hp Hns Hnp Hlat Hlon Ht Hd Hin.
  assert (t - 1 < length (time swe))%nat as Hprev
    by (apply lookup_lt_Some in Hd; lia).
  apply lookup_lt_is_Some_2 in Hprev as [d' Hd'].
  apply list_elem_of_lookup_1 in Hin as [k Hk].
  destruct (shape_ok_lookup swe t Hs) as [cur Hcur]; [by eapply lookup_lt_Some|].
  destruct (shape_ok_lookup swe (t - 1) Hs) as [prev Hprev]; [by eapply lookup_lt_Some|].
  destruct (shape_ok_lookup precip k Hp) as [p Hpk]; [by eapply lookup_lt_Some|].
  unfold lwf_step, lwf_row_by_label, time_at, sel, isel.
  rewrite Hd, Hd'. simpl.
  rewrite (get_loc_lookup _ _ _ Hns Hd), (get_loc_lookup _ _ _ Hns Hd').
  rewrite (get_loc_lookup _ _ _ Hnp Hk).
  rewrite Hcur, Hprev, Hpk. simpl.
  rewrite arith_same_grid. unfold arith at 1. simpl.
  rewrite (join_inner_subset _ _ Hlat), (join_inner_subset _ _ Hlon).
  rewrite reindex_same.
  unfold setitem, smap. simpl. by rewrite !coords_equal_refl.
Qed.

(** X4.  The precipitation operand is taken by coordinate, not by position:
    when the grid of [precip] contains every coordinate of [swe] (possibly
    more, possibly in another order), [calculate_lwf] returns datasets on
    the grid of [swe], and the cell at ([la], [lo]) is computed from the
    precipitation stored under the same ([la], [lo]). *)
Theorem calculate_lwf_aligns_by_label swe precip t d k i j la lo prev cur p :
  shape_ok swe -> shape_ok precip ->
  NoDup (time swe) -> NoDup (time precip) ->
  distinct_labels (latitude precip) -> distinct_labels (longitude precip) ->
  (forall x, x ∈ latitude swe -> label_in x (latitude precip) = true) ->
  (forall x, x ∈ longitude swe -> label_in x (longitude precip) = true) ->
  time_covered swe precip ->
  (1 <= t)%nat -> time swe !! t = Some d -> time precip !! k = Some d ->
  latitude swe !! i = Some la -> longitude swe !! j = Some lo ->
  cell_at swe (t - 1) i j = Some prev ->
  cell_at swe t i j = Some cur ->
  label_cell precip k la lo = Some p ->
  exists lwf_rate lwf_daily,
    calculate_lwf swe precip = inr (lwf_rate, lwf_daily) /\
    latitude lwf_rate = latitude swe /\ longitude lwf_rate = longitude swe /\
    cell_at lwf_rate (t - 1) i j = Some (lwf_cell prev cur p) /\
    cell_at lwf_daily (t - 1) i j = Some (to_mm_day (lwf_cell prev cur p)).
Proof.
  intros Hs Hp Hns Hnp Hdlat Hdlon Hlat Hlon Hcov Ht Hd Hk Hla Hlo Hprev Hcur Hpl.
  assert (1 <= t <= length (time swe) - 1)%nat as Hrange
    by (apply lookup_lt_Some in Hd; lia).
  assert (calculate_lwf swe precip =
    inr (mkDataArray (drop 1 (time swe)) (latitude swe) (longitude swe)
           (lwf_row_by_label swe precip <$> seq 1 (length (time swe) - 1)),
         mkDataArray (drop 1 (time swe)) (latitude swe) (longitude swe)
           (map (map (map to_mm_day))
                (lwf_row_by_label swe precip <$> seq 1 (length (time swe) - 1)))))
    as Hrun.
  { unfold calculate_lwf.
    destruct (length (time swe)) as [|m] eqn:Hlen; [lia|].
    rewrite (for_range_rows _ (lwf_row_by_label swe precip) m).
    - simpl. by rewrite Nat.sub_0_r.
    - by rewrite length_replicate.
    - intros t' data Ht'.
      destruct (lookup_lt_is_Some_2 (time swe) t') as [d' Hd']; [lia|].
      apply (lwf_step_by_label swe precip t' d'); auto; [lia|].
      apply (Hcov t' d'); [lia|done]. }
  assert (at2 (lwf_row_by_label swe precip t) i j = Some (lwf_cell prev cur p))
    as Hrow.
  { unfold lwf_row_by_label, label_cell, cell_at in *.
    rewrite Hd, (get_loc_lookup _ _ _ Hnp Hk).
    destruct (values swe !! (t - 1)%nat) as [gp|]; [|done].
    destruct (values swe !! t) as [gc|]; [|done].
    destruct (get_loc Qeq_bool la (latitude precip)) as [i'|] eqn:Hi'; [|done].
    destruct (get_loc Qeq_bool lo (longitude precip)) as [j'|] eqn:Hj'; [|done].
    destruct (values precip !! k) as [gk|]; [|done]. simpl.
    apply at2_rate_grid; [done|done|].
    by apply (at2_reindex _ _ _ _ _ i j la lo i' j'). }
  eexists _, _. split; [exact Hrun|]. split; [done|]. split; [done|].
  rewrite !cell_at_rows. split.
  - by rewrite lookup_rows.
  - change (map (map (map to_mm_day)) ?l) with (map (map to_mm_day) <$> l).
    rewrite list_lookup_fmap, lookup_rows by done. simpl.
    by apply at2_map.
Qed.

Ltac solve_distinct :=
  intros i j x y Hi Hj Hxy;
  destruct i as [|[|[|i]]]; destruct j as [|[|[|j]]]; simpl in Hi, Hj;
  try discriminate; try reflexivity;
  simplify_eq; exfalso; unfold Qeq in Hxy; simpl in Hxy; discriminate.

Ltac solve_subset :=
  intros x Hx; simpl in Hx; rewrite ?elem_of_cons, elem_of_nil in Hx;
  intuition (subst; reflexivity).

Lemma calculate_lwf_aligns_by_label_witness :
  exists lwf_rate lwf_daily,
    calculate_lwf swe_10_8 precip_relabelled = inr (lwf_rate, lwf_daily) /\
    latitude lwf_rate = latitude swe_10_8 /\
    longitude lwf_rate = longitude swe_10_8 /\
    cell_at lwf_rate 0 1 0 = Some (lwf_cell 10 8 30) /\
    cell_at lwf_daily 0 1 0 = Some (to_mm_day (lwf_cell 10 8 30)).
Proof.
  apply (calculate_lwf_aligns_by_label swe_10_8 precip_relabelled
           1 1%Z 0 1 0 1%Q 0%Q 10%float 8%float 30%float).
  - solve_shape.
  - solve_shape.
  - solve_nodup.
  - solve_nodup.
  - solve_distinct.
  - solve_distinct.
  - solve_subset.
  - solve_subset.
  - apply (two_days_covered _ _ 0%Z 1%Z); [reflexivity | by left].
  - lia.
  - reflexivity.
  - reflexivity.
  - reflexivity.
  - reflexivity.
  - reflexivity.
  - reflexivity.
  - reflexivity.
Defined.

(** ** [resample_SNODAS_to_CaPA]: the crop step on ascending axes *)

Lemma crop_CaPA_ascending_witness :
  exists cropped,
    crop_CaPA swe_10_8 capa_target = inr cropped /\
    time cropped = time capa_target /\
    forall la lo,
      has_cell cropped la lo <->
      has_cell capa_target la lo /\
      (0 <= lo)%Q /\ (lo <= 1)%Q /\ (0 <= la)%Q /\ (la <= 1)%Q.
Proof.
  apply (crop_CaPA_ascending swe_10_8 capa_target 0%Q 1%Q 0%Q 1%Q).
  - simpl. split; [reflexivity|exact I].
  - simpl. split; [reflexivity|exact I].
  - reflexivity.
  - reflexivity.
  - reflexivity.
  - reflexivity.
Defined.

(** ** The crop step keeps values and shape *)

Lemma select_length {A B} (keep : list bool) (xs : list A) (ys : list B) :
  length xs = length ys -> length (select keep xs) = length (select keep ys).
Proof.
  revert xs ys. induction keep as [|k keep IH]; intros [|x xs] [|y ys]; simpl; try done.
  intros [= H]. destruct k; simpl; auto.
Qed.

Lemma select_lookup_elem {A} (keep : list bool) (xs : list A) i x :
  select keep xs !! i = Some x -> x ∈ xs.
Proof.
  revert xs i. induction keep as [|k keep IH]; intros [|y xs] i; simpl; try done.
  destruct k.
  - destruct i as [|i]; simpl.
    + intros [= <-]. by left.
    + intros H. right. by eapply IH.
  - intros H. right. by eapply IH.
Qed.

Lemma where_drop_shape cond da : shape_ok da -> shape_ok (where_drop cond da).
Proof.
  intros [Hlen Hrows]. split.
  - unfold where_drop. simpl. by rewrite length_fmap.
  - unfold where_drop. cbn [values latitude longitude].
    apply Forall_fmap. eapply Forall_impl; [exact Hrows|].
    intros g [Hg Hrow]. simpl. split.
    + rewrite length_zip_with, (select_length _ g (latitude da)) by done. lia.
    + apply Forall_lookup_2. intros i row Hi.
      apply lookup_zip_with_Some in Hi as (la & r & -> & _ & Hr).
      rewrite length_zip_with.
      pose proof (select_lookup_elem _ _ _ _ Hr) as Hin.
      rewrite Forall_forall in Hrow.
      rewrite (select_length _ r (longitude da)) by (by apply Hrow). lia.
Qed.

Lemma get_loc_elem x l : x ∈ l -> exists i, get_loc Qeq_bool x l = Some i.
Proof.
  induction l as [|y l IH]; simpl.
  - by intros ?%elem_of_nil.
  - intros [->|Hx]%elem_of_cons.
    + rewrite Qeq_bool_refl. by eexists.
    + destruct (Qeq_bool x y); [by eexists|].
      destruct (IH Hx) as [i ->]. by eexists.
Qed.

Lemma get_loc_filter (f : Q -> bool) x l i :
  (forall y, (x == y)%Q -> f y = true) ->
  get_loc Qeq_bool x l = Some i ->
  exists i' y,
    get_loc Qeq_bool x (List.filter f l) = Some i' /\
    List.filter f l !! i' = Some y /\ (x == y)%Q /\
    forall B (xs : list B), select (f <$> l) xs !! i' = xs !! i.
Proof.
  intros Hf. revert i. induction l as [|y l IH]; intros i; simpl; [done|].
  destruct (Qeq_bool x y) eqn:E.
  - intros [= <-]. apply Qeq_bool_iff in E. rewrite (Hf y E). simpl.
    rewrite (proj2 (Qeq_bool_iff x y) E).
    exists 0%nat, y. repeat split; try done.
    intros B [|b xs]; by csimpl.
  - destruct (get_loc Qeq_bool x l) as [k|]; simpl; [|done].
    intros [= <-]. destruct (IH k eq_refl) as (k' & z & Hk' & Hz & Hxz & Hsel).
    destruct (f y) eqn:Hy; simpl.
    + rewrite E, Hk'. simpl. exists (S k'), z. repeat split; try done.
      intros B [|b xs]; csimpl; [done|]. apply Hsel.
    + exists k', z. repeat split; try done.
      intros B [|b xs]; csimpl; [done|]. apply Hsel.
Qed.

(** Label lookup is the same before and after [where(cond, drop=True)], for
    every retained cell, when the condition is a box (it holds at a cell
    as soon as it holds somewhere in its row and somewhere in its column)
    and does not tell equal coordinates apart. *)
Lemma where_drop_label_cell cond da t la lo :
  (forall la lo la' lo', cond la lo' = true -> cond la' lo = true -> cond la lo = true) ->
  (forall la la' lo lo', (la == la')%Q -> (lo == lo')%Q -> cond la lo = cond la' lo') ->
  has_cell (where_drop cond da) la lo ->
  label_cell (where_drop cond da) t la lo = label_cell da t la lo.
Proof.
  intros Hbox Hcompat [Hla Hlo].
  unfold where_drop in Hla, Hlo. cbn [latitude longitude] in Hla, Hlo.
  rewrite select_fmap_filter, elem_of_filter_bool in Hla, Hlo.
  destruct Hla as [Hla Hkla], Hlo as [Hlo Hklo].
  destruct (get_loc_elem la _ Hla) as [i Hi].
  destruct (get_loc_elem lo _ Hlo) as [j Hj].
  apply existsb_elem_of in Hkla as Hkla'. destruct Hkla' as (lo' & _ & Hc1).
  apply existsb_elem_of in Hklo as Hklo'. destruct Hklo' as (la' & _ & Hc2).
  pose proof (Hbox la lo la' lo' Hc1 Hc2) as Hcond.
  destruct (get_loc_filter
              (fun la => existsb (fun lo => cond la lo) (longitude da))
              la (latitude da) i)
    as (i' & y & Hi' & Hy & Hlay & Hseli); [|done|].
  { intros y Hy. rewrite <- Hkla. apply eq_sym. clear -Hcompat Hy.
    induction (longitude da) as [|z l IH]; simpl; [done|].
    by rewrite IH, (Hcompat la y z z Hy (Qeq_refl z)). }
  destruct (get_loc_filter
              (fun lo => existsb (fun la => cond la lo) (latitude da))
              lo (longitude da) j)
    as (j' & z & Hj' & Hz & Hloz & Hselj); [|done|].
  { intros z Hz. rewrite <- Hklo. apply eq_sym. clear -Hcompat Hz.
    induction (latitude da) as [|w l IH]; simpl; [done|].
    by rewrite IH, (Hcompat w w lo z (Qeq_refl w) Hz). }
  unfold label_cell, where_drop. cbn [latitude longitude].
  rewrite !select_fmap_filter, Hi', Hj', Hi, Hj.
  unfold cell_at. cbn [values]. rewrite list_lookup_fmap.
  destruct (values da !! t) as [g|]; simpl; [|done].
  unfold at2. rewrite lookup_zip_with, <- select_fmap_filter, Hseli.
  rewrite select_fmap_filter, Hy. simpl.
  destruct (g !! i) as [row|]; simpl; [|done].
  rewrite lookup_zip_with, <- (select_fmap_filter _ (longitude da)), Hselj.
  rewrite select_fmap_filter, Hz. simpl.
  destruct (row !! j) as [v|]; simpl; [|done].
  by rewrite <- (Hcompat la y lo z Hlay Hloz), Hcond.
Qed.

Lemma in_extent_box lon0 lonN lat0 latN la lo la' lo' :
  in_extent lon0 lonN lat0 latN la lo' = true ->
  in_extent lon0 lonN lat0 latN la' lo = true ->
  in_extent lon0 lonN lat0 latN la lo = true.
Proof. rewrite !in_extent_spec. tauto. Qed.

Lemma in_extent_compat lon0 lonN lat0 latN la la' lo lo' :
  (la == la')%Q -> (lo == lo')%Q ->
  in_extent lon0 lonN lat0 latN la lo = in_extent lon0 lonN lat0 latN la' lo'.
Proof.
  intros Hla Hlo. apply eq_true_iff_eq. rewrite !in_extent_spec.
  by rewrite Hla, Hlo.
Qed.

(** X7.  Cropping only drops cells: the result keeps the time axis and the shape
    invariant, and every retained cell holds the value that the target holds
    under the same coordinates (nothing is masked or moved), for every
    source grid. *)
Theorem crop_CaPA_keeps_values src tgt cropped :
  crop_CaPA src tgt = inr cropped ->
  time cropped = time tgt /\
  (shape_ok tgt -> shape_ok cropped) /\
  forall t la lo,
    has_cell cropped la lo ->
    label_cell cropped t la lo = label_cell tgt t la lo.
Proof.
  unfold crop_CaPA.
  destruct (first_of (longitude src)) as [|lon0]; simpl; [done|].
  destruct (last_of (longitude src)) as [|lonN]; simpl; [done|].
  destruct (first_of (latitude src)) as [|lat0]; simpl; [done|].
  destruct (last_of (latitude src)) as [|latN]; simpl; [done|].
  intros [= <-]. split; [done|]. split; [apply where_drop_shape|].
  intros t la lo. apply where_drop_label_cell.
  - apply in_extent_box.
  - apply in_extent_compat.
Qed.

Lemma crop_CaPA_keeps_values_witness :
  time (where_drop (in_extent 0 1 0 1) capa_target) = time capa_target /\
  (shape_ok capa_target -> shape_ok (where_drop (in_extent 0 1 0 1) capa_target)) /\
  forall t la lo,
    has_cell (where_drop (in_extent 0 1 0 1) capa_target) la lo ->
    label_cell (where_drop (in_extent 0 1 0 1) capa_target) t la lo
    = label_cell capa_target t la lo.
Proof.
  apply (crop_CaPA_keeps_values swe_10_8 capa_target). reflexivity.
Defined.

(** ** [resample_SNODAS_to_CaPA]: what the loop stores *)

Lemma for_each_store {A} (h : nat -> res A) lo n (s0 s : list A) :
  for_each (seq lo n) (fun t a => letM g := h t in inr (<[t := g]> a)) s0 = inr s <->
  length s = length s0 /\
  (forall t, (lo <= t < lo + n)%nat ->
             exists g, h t = inr g /\ ((t < length s0)%nat -> s !! t = Some g)) /\
  (forall t, ~ (lo <= t < lo + n)%nat -> s !! t = s0 !! t).
Proof.
  revert lo s0. induction n as [|n IH]; intros lo s0; simpl.
  - split.
    + intros [= <-]. split; [done|]. split; [intros t; lia|done].
    + intros (_ & _ & Hsame). f_equal. apply list_eq. intros t.
      symmetry. apply Hsame. lia.
  - split.
    + destruct (h lo) as [e|g0] eqn:Hlo; simpl; [done|].
      intros (Hlen & Hin & Hout)%IH. rewrite length_insert in Hlen.
      split; [done|]. split.
      * intros t Ht. destruct (decide (t = lo)) as [->|Hne].
        -- exists g0. split; [done|]. intros Hlt.
           rewrite Hout by lia. by apply list_lookup_insert_eq.
        -- destruct (Hin t) as (g & Hg & Hs); [lia|]. exists g. split; [done|].
           intros Hlt. apply Hs. by rewrite length_insert.
      * intros t Ht. rewrite Hout by lia. apply list_lookup_insert_ne. lia.
    + intros (Hlen & Hin & Hout).
      destruct (Hin lo) as (g0 & Hg0 & Hs0); [lia|]. rewrite Hg0. simpl.
      apply IH. rewrite length_insert. split; [done|]. split.
      * intros t Ht. destruct (Hin t) as (g & Hg & Hs); [lia|]. by exists g.
      * intros t Ht. destruct (decide (t = lo)) as [->|Hne].
        -- destruct (decide (lo < length s0)%nat) as [Hlt|Hge].
           ++ rewrite Hs0 by done. symmetry. by apply list_lookup_insert_eq.
           ++ rewrite (lookup_ge_None_2 s) by lia.
              symmetry. apply lookup_ge_None_2. rewrite length_insert. lia.
        -- rewrite list_lookup_insert_ne by done. apply Hout. lia.
Qed.

Lemma resample_step_store tri src xi t up :
  resample_step tri src
    (concat (meshgrid (longitude src) (latitude src))) xi t up
  = letM g := interpolate_step tri src xi t in inr (<[t := g]> up).
Proof.
  unfold resample_step, interpolate_step.
  destruct (isel src t) as [e|swe_values]; simpl; [done|]. done.
Qed.

(** X9.  [resample_SNODAS_to_CaPA] returns exactly when the crop succeeds and
    every time step of the source can be interpolated; what it returns is
    the cropped target together with a dataset on the cropped grid and the
    source's time axis whose row [t] is the interpolation of the valid
    (non-NaN) cells of source step [t] alone. *)
Theorem resample_returns_iff tri src tgt upscaled cropped :
  resample_SNODAS_to_CaPA tri src tgt = inr (upscaled, cropped) <->
  crop_CaPA src tgt = inr cropped /\
  time upscaled = time src /\
  latitude upscaled = latitude cropped /\
  longitude upscaled = longitude cropped /\
  length (values upscaled) = length (time src) /\
  forall t, (t < length (time src))%nat ->
    exists g,
      interpolate_step tri src
        (meshgrid (longitude cropped) (latitude cropped)) t = inr g /\
      values upscaled !! t = Some g.
Proof.
  unfold resample_SNODAS_to_CaPA.
  destruct (crop_CaPA src tgt) as [e|c]; simpl.
  { split; [done|]. by intros [? _]. }
  unfold for_range. rewrite Nat.sub_0_r.
  rewrite (for_each_ext _ _
             (fun t a => letM g := interpolate_step tri src
                                      (meshgrid (longitude c) (latitude c)) t
                         in inr (<[t := g]> a)))
    by (intros; apply resample_step_store).
  split.
  - destruct (for_each _ _ _) as [e|rows] eqn:Hrun; simpl; [done|].
    intros [= <- <-]. simpl.
    apply for_each_store in Hrun as (Hlen & Hin & _).
    rewrite length_replicate in Hlen.
    repeat split; try done.
    intros t Ht. destruct (Hin t) as (g & Hg & Hs); [lia|].
    exists g. split; [done|]. apply Hs. by rewrite length_replicate.
  - intros ([= ->] & Htime & Hlat & Hlon & Hlen & Hrows).
    match goal with
    | |- context [for_each ?ts ?body ?s0] =>
        assert (for_each ts body s0 = inr (values upscaled)) as ->
    end.
    { apply for_each_store. rewrite length_replicate. split; [done|]. split.
      - intros t Ht. destruct (Hrows t) as (g & Hg & Hs); [lia|]. by exists g.
      - intros t Ht. rewrite !lookup_ge_None_2; [done| |];
          rewrite ?length_replicate; lia. }
    simpl. destruct upscaled as [ts la lo vs]. simpl in *. by subst.
Qed.

Lemma resample_returns_iff_witness :
  resample_SNODAS_to_CaPA tri_nan swe_10_8 capa_target
  = inr (mkDataArray [0%Z; 1%Z] [0%Q; 1%Q] [0%Q; 1%Q]
                     [uniform 2 2 nan; uniform 2 2 nan],
         where_drop (in_extent 0 1 0 1) capa_target).
Proof.
  apply (resample_returns_iff tri_nan swe_10_8 capa_target).
  split; [reflexivity|]. split; [reflexivity|]. split; [reflexivity|].
  split; [reflexivity|]. split; [reflexivity|].
  intros [|[|t]] Ht; simpl in Ht; [by eexists|by eexists|lia].
Defined.

(** ** The pipeline: resampling, then the flux *)

Lemma for_each_outcome {S} (P : exn -> Prop) ts (body : nat -> S -> res S) s :
  (forall t a, t ∈ ts ->
     (exists b, body t a = inr b) \/ (exists e, body t a = inl e /\ P e)) ->
  (exists b, for_each ts body s = inr b) \/
  (exists e, for_each ts body s = inl e /\ P e).
Proof.
  revert s. induction ts as [|t ts IH]; intros s Hbody; simpl.
  - left. by eexists.
  - destruct (Hbody t s) as [[b Hb]|[e [He HP]]]; [by left| |].
    + rewrite Hb. simpl. apply IH. intros t' a Ht'. apply Hbody. by right.
    + rewrite He. simpl. right. by exists e.
Qed.

Lemma get_loc_Z_elem (l : list Z) d :
  d ∈ l -> exists i, get_loc Z.eqb d l = Some i /\ (i < length l)%nat.
Proof.
  induction l as [|y l IH]; simpl.
  - by intros ?%elem_of_nil.
  - intros Hd. destruct (Z.eqb_spec d y) as [->|Hne].
    + exists 0%nat. split; [done|lia].
    + apply elem_of_cons in Hd as [->|Hd]; [done|].
      destruct (IH Hd) as (i & -> & Hi). exists (S i). split; [done|lia].
Qed.

Lemma get_loc_Z_None (l : list Z) d : get_loc Z.eqb d l = None -> d ∉ l.
Proof.
  intros Hnone Hd. destruct (get_loc_Z_elem l d Hd) as (i & Hi & _). congruence.
Qed.

(** One iteration on two datasets that share their grid and hold one grid
    per time stamp: it stores a row, or the day is missing from [precip]. *)
Lemma lwf_step_same_grid swe precip t d data :
  latitude swe = latitude precip -> longitude swe = longitude precip ->
  length (values swe) = length (time swe) ->
  length (values precip) = length (time precip) ->
  (1 <= t)%nat -> time swe !! t = Some d ->
  (exists b, lwf_step swe precip t data = inr b) \/
  ((d ∉ time precip) /\ lwf_step swe precip t data = inl (KeyError d)).
Proof.
  intros Hlat Hlon Hs Hp Ht Hd.
  assert (t - 1 < length (time swe))%nat as Hprev
    by (apply lookup_lt_Some in Hd; lia).
  apply lookup_lt_is_Some_2 in Hprev as [d' Hd'].
  destruct (get_loc_Z_elem (time swe) d) as (i & Hi & Hilt);
    [by eapply list_elem_of_lookup_2|].
  destruct (get_loc_Z_elem (time swe) d') as (i' & Hi' & Hi'lt);
    [by eapply list_elem_of_lookup_2|].
  destruct (lookup_lt_is_Some_2 (values swe) i) as [cur Hcur]; [lia|].
  destruct (lookup_lt_is_Some_2 (values swe) i') as [prev Hprev]; [lia|].
  unfold lwf_step, time_at, sel, isel. rewrite Hd, Hd'. simpl.
  rewrite Hi, Hi', Hcur, Hprev. simpl.
  destruct (get_loc Z.eqb d (time precip)) as [k|] eqn:Hk; simpl.
  - left. apply get_loc_Some in Hk as Hk'. apply lookup_lt_Some in Hk'.
    destruct (lookup_lt_is_Some_2 (values precip) k) as [p Hpk]; [lia|].
    rewrite Hpk. simpl. rewrite <- Hlat, <- Hlon, !arith_same_grid.
    unfold setitem, smap. simpl. rewrite !coords_equal_refl. by eexists.
  - right. split; [by apply get_loc_Z_None|done].
Qed.

(** X10.  After a successful resampling the flux step cannot fail on a grid or
    shape conflict: the run ends with the exception of the resampler, or
    with both flux datasets, or because the SWE series is empty, or because
    a SWE day after the first has no precipitation record. *)
Theorem resample_then_lwf_outcome tri snodas_swe capa_data :
  length (values capa_data) = length (time capa_data) ->
  (exists e, resample_SNODAS_to_CaPA tri snodas_swe capa_data = inl e /\
             resample_then_lwf tri snodas_swe capa_data = inl e) \/
  (exists out, resample_then_lwf tri snodas_swe capa_data = inr out) \/
  (time snodas_swe = [] /\
   resample_then_lwf tri snodas_swe capa_data = inl ValueError) \/
  (exists d, d ∈ drop 1 (time snodas_swe) /\ (d ∉ time capa_data) /\
             resample_then_lwf tri snodas_swe capa_data = inl (KeyError d)).
Proof.
  intros Hcapa. unfold resample_then_lwf.
  destruct (resample_SNODAS_to_CaPA tri snodas_swe capa_data)
    as [e|[up c]] eqn:Hres; simpl.
  { left. by exists e. }
  right.
  apply resample_returns_iff in Hres as (Hcrop & Htime & Hlat & Hlon & Hlen & _).
  destruct (crop_CaPA_keeps_values _ _ _ Hcrop) as (Htc & _ & _).
  assert (length (values c) = length (time c)) as Hc.
  { unfold crop_CaPA in Hcrop.
    destruct (first_of (longitude snodas_swe)); simpl in Hcrop; [done|].
    destruct (last_of (longitude snodas_swe)); simpl in Hcrop; [done|].
    destruct (first_of (latitude snodas_swe)); simpl in Hcrop; [done|].
    destruct (last_of (latitude snodas_swe)); simpl in Hcrop; [done|].
    injection Hcrop as <-. simpl. by rewrite length_fmap. }
  unfold calculate_lwf. rewrite Htime.
  destruct (length (time snodas_swe)) as [|m] eqn:Hm.
  { right. left. split; [|done]. by destruct (time snodas_swe). }
  destruct (for_each_outcome
              (fun e => exists d, e = KeyError d /\
                                  d ∈ drop 1 (time snodas_swe) /\ d ∉ time capa_data)
              (seq 1 (S m - 1)) (lwf_step up c)
              (replicate m (replicate (length (latitude up))
                 (replicate (length (longitude up)) 0%float))))
    as [[rows Hrows]|(e & He & d & -> & Hd & Hout)].
  - intros t a Ht%elem_of_seq.
    destruct (lookup_lt_is_Some_2 (time up) t) as [d Hd]; [rewrite Htime; lia|].
    destruct (lwf_step_same_grid up c t d a) as [Hok|[Hout Herr]];
      try done; [rewrite Htime; lia|lia|by left|].
    right. exists (KeyError d). split; [done|]. exists d. split; [done|].
    split; [|by rewrite <- Htc].
    apply list_elem_of_lookup. exists (t - 1)%nat.
    rewrite lookup_drop, <- Htime. by replace (1 + (t - 1))%nat with t by lia.
  - left. unfold for_range. rewrite Hrows. simpl. by eexists.
  - right. right. exists d. unfold for_range. by rewrite He.
Qed.

Lemma resample_then_lwf_outcome_witness :
  (exists e, resample_SNODAS_to_CaPA tri_nan swe_10_8 precip_d0 = inl e /\
             resample_then_lwf tri_nan swe_10_8 precip_d0 = inl e) \/
  (exists out, resample_then_lwf tri_nan swe_10_8 precip_d0 = inr out) \/
  (time swe_10_8 = [] /\
   resample_then_lwf tri_nan swe_10_8 precip_d0 = inl ValueError) \/
  (exists d, d ∈ drop 1 (time swe_10_8) /\ (d ∉ time precip_d0) /\
             resample_then_lwf tri_nan swe_10_8 precip_d0 = inl (KeyError d)).
Proof. apply (resample_then_lwf_outcome tri_nan swe_10_8 precip_d0). reflexivity. Defined.

(** ** [run_postprocessing]: the area filter *)

Lemma where_drop_cells cond da la lo :
  (forall la lo la' lo', cond la lo' = true -> cond la' lo = true -> cond la lo = true) ->
  has_cell (where_drop cond da) la lo <-> has_cell da la lo /\ cond la lo = true.
Proof.
  intros Hbox. unfold has_cell, where_drop. cbn [latitude longitude].
  rewrite !select_fmap_filter, !elem_of_filter_bool, !existsb_elem_of. split.
  - intros [[Hla (lo' & _ & Hlo')] [Hlo (la' & _ & Hla')]].
    split; [done|]. by apply (Hbox la lo la' lo').
  - intros [[Hla Hlo] Hcond]. split; (split; [done|]).
    + by exists lo.
    + by exists la.
Qed.

Lemma postprocess_SWE_where_drop time_index ds :
  postprocess_SWE time_index ds
  = where_drop in_area (expand_dims time_index ds).
Proof. reflexivity. Qed.

Lemma in_area_spec la lo :
  in_area la lo = true <-> (-129 <= lo)%Q /\ (lo <= -101)%Q /\ (46 <= la)%Q.
Proof.
  unfold in_area. rewrite !andb_true_iff, !Qle_bool_iff.
  change (area_bound 1) with (-129)%Q. change (area_bound 3) with (-101)%Q.
  change (area_bound 2) with 46%Q. tauto.
Qed.

(** X11.  The area filter keeps the cells with longitude in [-129, -101] and
    latitude at least 46, and only those: the northern bound 63.5 listed in
    the area is not applied.  The result has the file's date as its single
    time stamp, and each kept cell holds the value the raster holds under
    the same coordinates. *)
Theorem postprocess_SWE_area time_index ds :
  time (postprocess_SWE time_index ds) = [time_index] /\
  (forall la lo,
     has_cell (postprocess_SWE time_index ds) la lo <->
     la ∈ s_lat ds /\ lo ∈ s_lon ds /\
     (-129 <= lo)%Q /\ (lo <= -101)%Q /\ (46 <= la)%Q) /\
  (forall la lo,
     has_cell (postprocess_SWE time_index ds) la lo ->
     label_cell (postprocess_SWE time_index ds) 0 la lo
     = label_cell (expand_dims time_index ds) 0 la lo).
Proof.
  rewrite postprocess_SWE_where_drop.
  assert (forall la lo la' lo', in_area la lo' = true -> in_area la' lo = true ->
                                in_area la lo = true) as Hbox.
  { intros la lo la' lo'. rewrite !in_area_spec. tauto. }
  split; [done|]. split.
  - intros la lo. rewrite where_drop_cells by exact Hbox.
    rewrite in_area_spec. unfold has_cell, expand_dims. simpl. tauto.
  - intros la lo. apply where_drop_label_cell; [exact Hbox|].
    intros la1 la2 lo1 lo2 Hla Hlo. apply eq_true_iff_eq.
    rewrite !in_area_spec. by rewrite Hla, Hlo.
Qed.

(** A row at latitude 70, north of 63.5, survives the filter. *)
Example postprocess_SWE_keeps_north :
  postprocess_SWE 0 band1_north
  = mkDataArray [0%Z] [50; 70]%Q [-110]%Q [[[4]; [6]]%float].
Proof. reflexivity. Qed.

(** ** [load_CaPA]: the date range *)

Lemma select_all_false {A} (f : Z -> bool) (l : list Z) (xs : list A) :
  Forall (fun t => f t = false) l -> select (f <$> l) xs = [].
Proof.
  intros H. revert xs. induction H as [|t l Ht _ IH]; intros [|x xs]; csimpl; try done.
  rewrite Ht. apply IH.
Qed.

Lemma searchsorted_none (before : Z -> bool) l :
  Forall (fun t => before t = false) l -> searchsorted before l = 0%nat.
Proof. destruct 1 as [|t l Ht _]; simpl; [done|]. by rewrite Ht. Qed.

(** On a sorted index the positional slice is the selection by the mask
    [start <= t <= stop], for whatever is stored along the index. *)
Lemma slice_as_mask {A} (l : list Z) (xs : list A) a b :
  StronglySorted Z.le l ->
  take (searchsorted (fun t => t <=? b)%Z l - searchsorted (fun t => t <? a)%Z l)
       (drop (searchsorted (fun t => t <? a)%Z l) xs)
  = select (in_dates a b <$> l) xs.
Proof.
  intros Hsorted. revert xs.
  induction Hsorted as [|t l Hsorted IH Hle]; intros xs; [destruct xs; reflexivity|].
  cbn [searchsorted]. unfold in_dates at 1. csimpl.
  destruct (Z.ltb_spec t a) as [Hta|Hta], (Z.leb_spec t b) as [Htb|Htb],
           (Z.leb_spec a t) as [Hat|Hat]; try lia; simpl.
  all: change (fun t0 => (a <=? t0)%Z && (t0 <=? b)%Z) with (in_dates a b).
  - destruct xs as [|x xs]; [by rewrite drop_nil, take_nil|]. simpl. apply IH.
  - destruct xs as [|x xs]; [done|]. rewrite select_all_false; [done|].
    eapply Forall_impl; [exact Hle|]. intros u Hu. unfold in_dates. simpl in Hu. lia.
  - destruct xs as [|x xs]; [done|]. simpl. f_equal.
    rewrite <- IH. rewrite (searchsorted_none (fun u => (u <? a)%Z)).
    + by rewrite Nat.sub_0_r.
    + eapply Forall_impl; [exact Hle|]. intros u Hu. simpl in Hu. lia.
  - destruct xs as [|x xs]; [done|]. rewrite select_all_false; [done|].
    eapply Forall_impl; [exact Hle|]. intros u Hu. unfold in_dates. simpl in Hu. lia.
Qed.

Lemma select_Forall {A} (P : A -> Prop) keep (xs : list A) :
  Forall P xs -> Forall P (select keep xs).
Proof.
  intros H. apply Forall_forall. intros x Hx.
  apply list_elem_of_lookup_1 in Hx as [i Hi].
  rewrite Forall_forall in H. apply H. by eapply select_lookup_elem.
Qed.

(** X12.  On a dataset whose time axis is sorted, [load_CaPA] called with
    two dates that [datetime64[ns]] can represent returns exactly the
    records with [start_date <= t <= end_date], in their order, with the
    grids stored for them and the spatial axes unchanged (an empty dataset
    when no record falls in the range), and keeps the shape invariant.
    A date outside the representable range raises [KeyError], the start
    date being looked up first. *)
Theorem load_CaPA_date_range ds start_date end_date :
  StronglySorted Z.le (time ds) ->
  (datetime64_ns start_date = true -> datetime64_ns end_date = true ->
   exists data,
     load_CaPA ds start_date end_date = inr data /\
     time data = List.filter (in_dates start_date end_date) (time ds) /\
     values data = select (in_dates start_date end_date <$> time ds) (values ds) /\
     latitude data = latitude ds /\
     longitude data = longitude ds /\
     (shape_ok ds -> shape_ok data)) /\
  (datetime64_ns start_date = false ->
   load_CaPA ds start_date end_date = inl (KeyError start_date)) /\
  (datetime64_ns start_date = true -> datetime64_ns end_date = false ->
   load_CaPA ds start_date end_date = inl (KeyError end_date)).
Proof.
  intros Hsorted. unfold load_CaPA, sel_time_slice, get_slice_bound.
  split; [|split].
  - intros -> ->. cbn [bind]. eexists. split; [reflexivity|].
    cbn [time values latitude longitude].
    rewrite !slice_as_mask by done. rewrite select_fmap_filter.
    split; [done|]. split; [done|]. split; [done|]. split; [done|].
    intros [Hlen Hrows]. split; simpl.
    + rewrite <- select_fmap_filter. by apply select_length.
    + by apply select_Forall.
  - by intros ->.
  - by intros -> ->.
Qed.

Lemma load_CaPA_date_range_witness :
  exists data,
    load_CaPA precip_two_days 1 5 = inr data /\
    time data = List.filter (in_dates 1 5) (time precip_two_days) /\
    values data = select (in_dates 1 5 <$> time precip_two_days) (values precip_two_days) /\
    latitude data = latitude precip_two_days /\
    longitude data = longitude precip_two_days /\
    (shape_ok precip_two_days -> shape_ok data).
Proof.
  apply (load_CaPA_date_range precip_two_days 1 5).
  - repeat constructor; lia.
  - reflexivity.
  - reflexivity.
Defined.

(** A start date in the year 1500, below the first representable instant,
    is refused although the archive has records before the end date. *)
Example load_CaPA_start_out_of_range :
  load_CaPA precip_two_days (-14831769600000000000) 5
  = inl (KeyError (-14831769600000000000)).
Proof. reflexivity. Qed.

(** ** [load_SNODAS]: which files are opened *)

Lemma for_files_date_step strptime a b files acc :
  for_files files (date_step strptime a b) acc =
  if forallb (parses strptime) files
  then inr (acc ++ List.filter (dated_in strptime a b) files)
  else inl ValueError.
Proof.
  revert acc. induction files as [|file files IH]; intros acc; simpl.
  - by rewrite app_nil_r.
  - unfold date_step at 1, parses at 1, dated_in at 1.
    destruct (strptime (before_underscore file)) as [d|]; simpl; [|done].
    rewrite IH. destruct (forallb (parses strptime) files); [|done].
    destruct (in_dates a b d); [|done]. by rewrite <- app_assoc.
Qed.

Lemma string_leb_trans s1 s2 s3 :
  String.leb s1 s2 = true -> String.leb s2 s3 = true -> String.leb s1 s3 = true.
Proof.
  unfold String.leb. revert s2 s3.
  induction s1 as [|c1 s1 IH]; intros [|c2 s2] [|c3 s3]; simpl; try done.
  unfold Ascii.compare.
  destruct (N.compare_spec (Ascii.N_of_ascii c1) (Ascii.N_of_ascii c2)) as [E12|L12|G12];
    destruct (N.compare_spec (Ascii.N_of_ascii c2) (Ascii.N_of_ascii c3)) as [E23|L23|G23];
    destruct (N.compare_spec (Ascii.N_of_ascii c1) (Ascii.N_of_ascii c3)) as [E13|L13|G13];
    try done; try lia.
  apply IH.
Qed.

#[local] Instance string_le_trans : Transitive string_le.
Proof. intros s1 s2 s3. apply string_leb_trans. Qed.

#[local] Instance string_le_total : Total string_le.
Proof. intros s1 s2. apply String.leb_total. Qed.

#[local] Instance string_le_antisym : AntiSymm (=) string_le.
Proof. intros s1 s2. apply String.leb_antisym. Qed.

Lemma existsb_negb {A} (f : A -> bool) (l : list A) :
  existsb (fun x => negb (f x)) l = negb (forallb f l).
Proof.
  induction l as [|x l IH]; simpl; [done|]. by rewrite negb_andb, IH.
Qed.

Lemma in_dates_spec a b t : in_dates a b t = true <-> (a <= t <= b)%Z.
Proof. unfold in_dates. rewrite andb_true_iff, !Z.leb_le. tauto. Qed.

Lemma elem_of_dated strptime a b variable listing f :
  f ∈ List.filter (dated_in strptime a b)
        (List.filter (fun f => endswith f (variable +:+ "_final.nc")) listing) <->
  f ∈ listing /\ endswith f (variable +:+ "_final.nc") = true /\
  exists d, strptime (before_underscore f) = Some d /\ (a <= d <= b)%Z.
Proof.
  rewrite !elem_of_filter_bool. unfold dated_in.
  destruct (strptime (before_underscore f)) as [d|].
  - rewrite in_dates_spec. split.
    + intros [[? ?] ?]. by eauto.
    + intros (? & ? & d' & [= <-] & ?). done.
  - split; [by intros [_ ?]|]. by intros (_ & _ & d & ? & _).
Qed.

(** X13.  When the file selection of [load_SNODAS] succeeds, the list it hands
    on is not empty, is in lexicographic order, and holds exactly the
    directory entries whose name ends in [<variable>_final.nc] and whose
    prefix before the first underscore parses to a date between the start
    and the end date (both included). *)
Theorem load_SNODAS_files_result strptime listing start_date end_date variable result :
  load_SNODAS_files strptime listing start_date end_date variable = inr result ->
  result <> [] /\
  Sorted string_le result /\
  forall f,
    f ∈ result <->
    f ∈ listing /\ endswith f (variable +:+ "_final.nc") = true /\
    exists d, strptime (before_underscore f) = Some d /\
              (start_date <= d <= end_date)%Z.
Proof.
  unfold load_SNODAS_files. rewrite for_files_date_step.
  destruct (forallb _ _); simpl; [|done].
  destruct (List.filter (dated_in _ _ _) _) as [|f0 fs] eqn:Hdated; [done|].
  intros [= <-].
  pose proof (merge_sort_Permutation string_le (f0 :: fs)) as Hperm.
  split; [|split].
  - intros E. rewrite E in Hperm. by apply Permutation_nil_cons in Hperm.
  - apply (Sorted_merge_sort string_le).
  - intros f. rewrite Hperm, <- Hdated. apply elem_of_dated.
Qed.

Lemma load_SNODAS_files_result_witness :
  ["1_SWE_final.nc"; "2_SWE_final.nc"; "3_SWE_final.nc"] <> [] /\
  Sorted string_le ["1_SWE_final.nc"; "2_SWE_final.nc"; "3_SWE_final.nc"] /\
  forall f,
    f ∈ ["1_SWE_final.nc"; "2_SWE_final.nc"; "3_SWE_final.nc"] <->
    f ∈ archive_listing /\ endswith f ("SWE" +:+ "_final.nc") = true /\
    exists d, strptime_digit (before_underscore f) = Some d /\ (1 <= d <= 3)%Z.
Proof.
  apply (load_SNODAS_files_result strptime_digit archive_listing 1 3 "SWE").
  reflexivity.
Defined.

(** X14.  The file selection of [load_SNODAS] raises [ValueError] exactly when
    some entry ending in [<variable>_final.nc] has no parsable date in front
    of its first underscore (wherever its date would fall), or when no such
    entry is dated within the range. *)
Theorem load_SNODAS_files_raises strptime listing start_date end_date variable :
  load_SNODAS_files strptime listing start_date end_date variable = inl ValueError <->
  (exists f, f ∈ listing /\ endswith f (variable +:+ "_final.nc") = true /\
             strptime (before_underscore f) = None) \/
  (forall f d, f ∈ listing -> endswith f (variable +:+ "_final.nc") = true ->
               strptime (before_underscore f) = Some d ->
               ~ (start_date <= d <= end_date)%Z).
Proof.
  unfold load_SNODAS_files. rewrite for_files_date_step.
  destruct (forallb _ _) eqn:Hall; simpl.
  - rewrite forallb_forall in Hall.
    destruct (List.filter (dated_in _ _ _) _) as [|f0 fs] eqn:Hdated.
    + split; [intros _|done]. right. intros f d Hf Hend Hd Hrange.
      assert (f ∈ @nil string) as Hnil; [|by apply elem_of_nil in Hnil].
      rewrite <- Hdated. apply elem_of_dated. by eauto.
    + split; [done|]. intros [(f & Hf & Hend & Hnone)|Hnone].
      * specialize (Hall f). unfold parses in Hall. rewrite Hnone in Hall.
        assert (false = true); [|done]. apply Hall.
        apply list_elem_of_In, elem_of_filter_bool. done.
      * assert (f0 ∈ f0 :: fs) as Hf0 by (by left).
        rewrite <- Hdated in Hf0.
        apply elem_of_dated in Hf0 as (Hf & Hend & d & Hd & Hrange).
        by destruct (Hnone f0 d).
  - split; [intros _|done]. left.
    assert (existsb (fun f => negb (parses strptime f))
              (List.filter (fun f => endswith f (variable +:+ "_final.nc")) listing)
            = true) as Hex.
    { by rewrite existsb_negb, Hall. }
    apply existsb_elem_of in Hex as (f & Hf & Hbad).
    apply elem_of_filter_bool in Hf as [Hf Hend].
    exists f. split; [done|]. split; [done|].
    unfold parses in Hbad. by destruct (strptime (before_underscore f)).
Qed.

Lemma filter_Permutation {A} (f : A -> bool) (l1 l2 : list A) :
  l1 ≡ₚ l2 -> List.filter f l1 ≡ₚ List.filter f l2.
Proof.
  induction 1 as [|x l1 l2 _ IH|x y l|l1 l2 l3 _ IH1 _ IH2]; simpl.
  - done.
  - destruct (f x); [by constructor|done].
  - destruct (f x), (f y); try done. apply perm_swap.
  - by etrans.
Qed.

Lemma forallb_Permutation {A} (f : A -> bool) (l1 l2 : list A) :
  l1 ≡ₚ l2 -> forallb f l1 = forallb f l2.
Proof.
  induction 1 as [|x l1 l2 _ IH|x y l|l1 l2 l3 _ IH1 _ IH2]; simpl.
  - done.
  - by rewrite IH.
  - by destruct (f x), (f y).
  - congruence.
Qed.

(** X15.  The outcome does not depend on the order in which the directory is
    listed: two listings with the same entries select the same files in
    the same order, or both raise. *)
Theorem load_SNODAS_files_listing_order strptime listing1 listing2
    start_date end_date variable :
  listing1 ≡ₚ listing2 ->
  load_SNODAS_files strptime listing1 start_date end_date variable
  = load_SNODAS_files strptime listing2 start_date end_date variable.
Proof.
  intros Hperm. unfold load_SNODAS_files. rewrite !for_files_date_step.
  pose proof (filter_Permutation
                (fun f => endswith f (variable +:+ "_final.nc")) _ _ Hperm) as Hfiles.
  rewrite (forallb_Permutation _ _ _ Hfiles).
  destruct (forallb _ _); simpl; [|done].
  pose proof (filter_Permutation (dated_in strptime start_date end_date) _ _ Hfiles)
    as Hdated.
  destruct (List.filter (dated_in _ _ _) (List.filter _ listing1)) as [|f1 fs1],
           (List.filter (dated_in _ _ _) (List.filter _ listing2)) as [|f2 fs2].
  - done.
  - by apply Permutation_nil_cons in Hdated.
  - symmetry in Hdated. by apply Permutation_nil_cons in Hdated.
  - f_equal. apply (Sorted_unique string_le).
    + apply (Sorted_merge_sort string_le).
    + apply (Sorted_merge_sort string_le).
    + by rewrite !merge_sort_Permutation.
Qed.

Lemma load_SNODAS_files_listing_order_witness :
  load_SNODAS_files strptime_digit archive_listing 1 3 "SWE"
  = load_SNODAS_files strptime_digit (reverse archive_listing) 1 3 "SWE".
Proof.
  apply (load_SNODAS_files_listing_order strptime_digit
           archive_listing (reverse archive_listing) 1 3 "SWE").
  symmetry. apply reverse_Permutation.
Defined.

(** ** No-data only comes from the inputs *)

Section rounding_facts.
Local Open Scope Z_scope.

Lemma shr_1_nonneg mrs : 0 <= shr_m mrs -> 0 <= shr_m (shr_1 mrs).
Proof.
  destruct mrs as [m r s']. simpl.
  destruct m as [|[p|p|]|[p|p|]]; simpl; lia.
Qed.

Lemma iter_pos_shr_1_nonneg p mrs :
  0 <= shr_m mrs -> 0 <= shr_m (@SpecFloat.iter_pos shr_record shr_1 p mrs).
Proof.
  revert mrs. induction p as [p IH|p IH|]; intros mrs H; simpl.
  - apply IH, IH, shr_1_nonneg, H.
  - apply IH, IH, H.
  - apply shr_1_nonneg, H.
Qed.

Lemma shr_fexp_nonneg m e l :
  0 <= m -> 0 <= shr_m (fst (shr_fexp prec emax m e l)).
Proof.
  intros Hm. unfold shr_fexp, shr.
  assert (0 <= shr_m (shr_record_of_loc m l)) as H0.
  { destruct l as [|[]]; simpl; exact Hm. }
  destruct (fexp prec emax (Zdigits2 m + e) - e); simpl; try exact H0.
  by apply iter_pos_shr_1_nonneg.
Qed.

Lemma round_nearest_even_nonneg mx lx : 0 <= mx -> 0 <= round_nearest_even mx lx.
Proof.
  intros H. unfold round_nearest_even.
  destruct lx as [|[]]; try lia. destruct (Z.even mx); lia.
Qed.

Lemma binary_round_aux_not_nan s mx ex lx :
  0 <= mx -> sf_is_nan (binary_round_aux prec emax s mx ex lx) = false.
Proof.
  intros Hm. unfold binary_round_aux.
  pose proof (shr_fexp_nonneg mx ex lx Hm) as H1.
  destruct (shr_fexp prec emax mx ex lx) as [mrs' e']. simpl in H1.
  pose proof (shr_fexp_nonneg _ e' loc_Exact
                (round_nearest_even_nonneg _ (loc_of_shr_record mrs') H1)) as H2.
  destruct (shr_fexp prec emax _ e' loc_Exact) as [mrs'' e'']. simpl in H2.
  destruct (shr_m mrs'') as [|m|m]; try reflexivity; [|lia].
  destruct (e'' <=? emax - prec); reflexivity.
Qed.

Lemma binary_normalize_not_nan m e szero :
  sf_is_nan (binary_normalize prec emax m e szero) = false.
Proof.
  unfold binary_normalize, binary_round.
  destruct m as [|m|m]; [reflexivity| |];
    destruct (shl_align m e _) as [mz ez]; by apply binary_round_aux_not_nan.
Qed.

Lemma SFsub_finite_not_nan x y :
  sf_finite x = true -> sf_finite y = true -> sf_is_nan (SF64sub x y) = false.
Proof.
  unfold SF64sub, SFsub.
  destruct x as [[]| | |sx mx ex], y as [[]| | |sy my ey]; try done.
  intros _ _. apply binary_normalize_not_nan.
Qed.

Lemma SFadd_finite_not_nan x y :
  sf_is_nan x = false -> sf_finite y = true -> sf_is_nan (SF64add x y) = false.
Proof.
  unfold SF64add, SFadd.
  destruct x as [[]|[]| |sx mx ex], y as [[]| | |sy my ey]; try done.
  intros _ _. apply binary_normalize_not_nan.
Qed.

Lemma SFdiv_const_not_nan x m e :
  sf_is_nan x = false -> sf_is_nan (SF64div x (S754_finite false m e)) = false.
Proof.
  unfold SF64div, SFdiv. destruct x as [sx|sx| |sx mx ex]; try done.
  intros _. unfold SFdiv_core_binary.
  set (m' := match _ - _ with Z0 => Z.pos mx | Z.pos _ => _ | Z.neg _ => 0 end).
  assert (0 <= m') as Hm'.
  { subst m'. destruct (_ - _); try lia. by apply Z.shiftl_nonneg. }
  destruct (Z.div_eucl m' (Z.pos m)) as [q r] eqn:Hqr.
  apply binary_round_aux_not_nan.
  assert (q = m' / Z.pos m) as -> by (unfold Z.div; by rewrite Hqr).
  apply Z.div_pos; lia.
Qed.

Lemma SFmul_const_not_nan x m e :
  sf_is_nan x = false -> sf_is_nan (SF64mul x (S754_finite false m e)) = false.
Proof.
  unfold SF64mul, SFmul. destruct x as [sx|sx| |sx mx ex]; try done.
  intros _. by apply binary_round_aux_not_nan.
Qed.

End rounding_facts.

Section finite_cells.
Local Open Scope float_scope.

Lemma is_nan_false_spec x : is_nan x = false <-> sf_is_nan (Prim2SF x) = false.
Proof.
  pose proof (is_nan_spec x) as H.
  destruct (is_nan x), (Prim2SF x); simpl; intuition congruence.
Qed.

Lemma is_finite_spec x : is_finite x = true -> sf_finite (Prim2SF x) = true.
Proof.
  unfold is_finite, is_infinity.
  rewrite negb_true_iff, orb_false_iff, FloatAxioms.eqb_spec, abs_spec.
  intros [Hnan Hinf]. apply is_nan_false_spec in Hnan.
  change (Prim2SF infinity) with (S754_infinity false) in Hinf.
  destruct (Prim2SF x) as [s|s| |s m e]; try done.
Qed.

(** Finite operands never give "no data": the stored rate and its
    rescaled copy are numbers (possibly an infinity after overflow). *)
Lemma lwf_cell_finite_not_nan prev cur p :
  is_finite prev = true -> is_finite cur = true -> is_finite p = true ->
  is_nan (lwf_cell prev cur p) = false /\
  is_nan (to_mm_day (lwf_cell prev cur p)) = false.
Proof.
  intros Hprev%is_finite_spec Hcur%is_finite_spec Hp%is_finite_spec.
  assert (is_nan (prev - cur + p) = false) as Hraw.
  { apply is_nan_false_spec. rewrite add_spec, sub_spec.
    apply SFadd_finite_not_nan; [|done]. by apply SFsub_finite_not_nan. }
  assert (is_nan (clamp (prev - cur + p)) = false) as Hclamp.
  { unfold clamp. by destruct (_ <? 0). }
  assert (is_nan (lwf_cell prev cur p) = false) as Hrate.
  { unfold lwf_cell. apply is_nan_false_spec. rewrite div_spec.
    unfold ms_per_day.
    change (Prim2SF 86400000) with (S754_finite false 5798205849600000 (-26)).
    apply SFdiv_const_not_nan. by apply is_nan_false_spec. }
  split; [done|].
  unfold to_mm_day. apply is_nan_false_spec. rewrite !mul_spec.
  change (Prim2SF 86400) with (S754_finite false 5937362789990400 (-36)).
  change (Prim2SF 1000) with (S754_finite false 8796093022208000 (-43)).
  apply SFmul_const_not_nan, SFmul_const_not_nan. by apply is_nan_false_spec.
Qed.

End finite_cells.

(** X5.  No-data does not appear on its own: at a cell where [swe[t-1]],
    [swe[t]] and [precip[t]] are all finite numbers, both returned datasets
    hold a number (never NaN), whatever the magnitudes. *)
Theorem calculate_lwf_finite_inputs swe precip t d k i j prev cur p :
  lwf_inputs swe precip -> time_covered swe precip ->
  (1 <= t)%nat -> time swe !! t = Some d -> time precip !! k = Some d ->
  cell_at swe (t - 1) i j = Some prev ->
  cell_at swe t i j = Some cur ->
  cell_at precip k i j = Some p ->
  is_finite prev = true -> is_finite cur = true -> is_finite p = true ->
  exists lwf_rate lwf_daily r m,
    calculate_lwf swe precip = inr (lwf_rate, lwf_daily) /\
    cell_at lwf_rate (t - 1) i j = Some r /\ is_nan r = false /\
    cell_at lwf_daily (t - 1) i j = Some m /\ is_nan m = false.
Proof.
  intros Hin Hcov Ht Hd Hk Hprev Hcur Hp Fprev Fcur Fp.
  destruct (calculate_lwf_cells swe precip t d k i j prev cur p)
    as (lwf_rate & lwf_daily & Hrun & Hrate & Hdaily); auto.
  destruct (lwf_cell_finite_not_nan prev cur p Fprev Fcur Fp) as [Hr Hm].
  by exists lwf_rate, lwf_daily, (lwf_cell prev cur p), (to_mm_day (lwf_cell prev cur p)).
Qed.

Lemma calculate_lwf_finite_inputs_witness :
  exists lwf_rate lwf_daily r m,
    calculate_lwf swe_10_8 precip_d1 = inr (lwf_rate, lwf_daily) /\
    cell_at lwf_rate 0 0 1 = Some r /\ is_nan r = false /\
    cell_at lwf_daily 0 0 1 = Some m /\ is_nan m = false.
Proof.
  apply (calculate_lwf_finite_inputs swe_10_8 precip_d1 1 1%Z 0 0 1
           10%float 8%float 1%float).
  - solve_inputs.
  - apply (two_days_covered _ _ 0%Z 1%Z); [reflexivity | by left].
  - lia.
  - reflexivity.
  - reflexivity.
  - reflexivity.
  - reflexivity.
  - reflexivity.
  - reflexivity.
  - reflexivity.
  - reflexivity.
Defined.

(** ** The crop step on a descending source axis *)

Lemma descending_gt_head x l y : descending (x :: l) -> y ∈ l -> (y < x)%Q.
Proof.
  revert x. induction l as [|z l IH]; intros x Hdesc Hy.
  - by apply elem_of_nil in Hy.
  - destruct Hdesc as [Hzx Hdesc]. apply elem_of_cons in Hy as [->|Hy]; [done|].
    eapply Qlt_trans; [|exact Hzx]. by apply IH.
Qed.

Lemma descending_ends l :
  descending l -> (2 <= length l)%nat ->
  exists x0 xN, first_of l = inr x0 /\ last_of l = inr xN /\ (xN < x0)%Q.
Proof.
  destruct l as [|x [|y l]]; simpl; try lia. intros Hdesc _.
  unfold last_of. rewrite last_cons_cons.
  destruct (list.last (y :: l)) as [z|] eqn:Hlast.
  2:{ by destruct l using rev_ind; [|rewrite app_comm_cons, last_snoc in Hlast]. }
  exists x, z. split; [done|]. split; [done|].
  apply (descending_gt_head x (y :: l)); [done|]. by apply last_Some_elem_of.
Qed.

Lemma select_none {A B} (f : A -> bool) (l : list A) (xs : list B) :
  (forall x, f x = false) -> select (f <$> l) xs = [].
Proof.
  intros Hf. revert xs. induction l as [|x l IH]; intros [|y xs]; csimpl; try done.
  by rewrite Hf.
Qed.

Lemma where_drop_nowhere cond da :
  (forall la lo, cond la lo = false) ->
  latitude (where_drop cond da) = [] /\ longitude (where_drop cond da) = [].
Proof.
  intros Hcond. unfold where_drop. cbn [latitude longitude].
  split; apply select_none; intros x.
  - induction (longitude da) as [|lo l IH]; simpl; [done|]. by rewrite Hcond.
  - induction (latitude da) as [|la l IH]; simpl; [done|]. by rewrite Hcond.
Qed.

(** X8.  The crop takes the first and the last entry of each source axis as
    lower and upper bound.  When a source axis with two or more entries is
    strictly descending, no coordinate lies between them, and the cropped
    target has no cell left, whatever the target is. *)
Theorem crop_CaPA_descending_source src tgt cropped :
  (descending (latitude src) /\ (2 <= length (latitude src))%nat) \/
  (descending (longitude src) /\ (2 <= length (longitude src))%nat) ->
  crop_CaPA src tgt = inr cropped ->
  latitude cropped = [] /\ longitude cropped = [] /\ time cropped = time tgt.
Proof.
  intros Hdesc. unfold crop_CaPA.
  destruct (first_of (longitude src)) as [|lon0] eqn:Hlon0; simpl; [done|].
  destruct (last_of (longitude src)) as [|lonN] eqn:HlonN; simpl; [done|].
  destruct (first_of (latitude src)) as [|lat0] eqn:Hlat0; simpl; [done|].
  destruct (last_of (latitude src)) as [|latN] eqn:HlatN; simpl; [done|].
  intros [= <-].
  assert (forall la lo, in_extent lon0 lonN lat0 latN la lo = false) as Hnowhere.
  { intros la lo. apply not_true_is_false. rewrite in_extent_spec.
    intros (H1 & H2 & H3 & H4).
    destruct Hdesc as [[Hd Hlen]|[Hd Hlen]];
      destruct (descending_ends _ Hd Hlen) as (x0 & xN & Hx0 & HxN & Hlt).
    - rewrite Hlat0 in Hx0. rewrite HlatN in HxN.
      injection Hx0 as <-. injection HxN as <-.
      apply (Qlt_irrefl lat0). eapply Qle_lt_trans; [|exact Hlt].
      by eapply Qle_trans.
    - rewrite Hlon0 in Hx0. rewrite HlonN in HxN.
      injection Hx0 as <-. injection HxN as <-.
      apply (Qlt_irrefl lon0). eapply Qle_lt_trans; [|exact Hlt].
      by eapply Qle_trans. }
  destruct (where_drop_nowhere _ tgt Hnowhere) as [-> ->]. done.
Qed.

Lemma crop_CaPA_descending_source_witness :
  latitude (mkDataArray [0%Z; 1%Z] [] [] [[]; []]) = [] /\
  longitude (mkDataArray [0%Z; 1%Z] [] [] [[]; []]) = [] /\
  time (mkDataArray [0%Z; 1%Z] [] [] [[]; []]) = time capa_target.
Proof.
  apply (crop_CaPA_descending_source snodas_north_up capa_target).
  - left. split; [|simpl; lia]. simpl. split; [reflexivity|exact I].
  - reflexivity.
Defined.
